(** * ConnectionClient (src/app.js): a shallow embedding and its properties

    The development follows the class [ConnectionClient] of [src/app.js]
    (lines 299-532): transport classification, connect / disconnect / send /
    isOpen, the per-transport event handlers and the reconnect policy.

    The client is a record, the transport objects and the timers live on
    two heaps indexed by their handles, and everything the outside can see
    (log lines, observer calls, calls of transport methods) is appended to a
    trace.  Methods are computations in a state monad with exceptions; the
    host drives them through [step], one turn of the event loop at a time.
    What the class takes from its platform ([new WebSocket], [new URL], the
    [io] global, [JSON.parse], [Math.random()]) is a parameter.  The four
    observers are taken to be supplied, so [this.onOpen?.()] is a call, and
    to return: what an observer of the page does inside the call is not part
    of the client.

    A second part follows the page around the client, as far as it is
    plain data: the numbers of the settings form ([clamp],
    [Validators.numberIn]), [Validators.url], [escapeHTML], the logger with
    its counters and its cap on the lines, the message router
    [App.handleWSMessage], the saved servers and [Actions.run].  The DOM is
    not modelled: the log body is the list of its lines, and the stored
    arrays are lists.

    A JavaScript number is a double: [NaN], an infinity, or a rational
    value, and a sum or a product is the exact result rounded to the
    nearest double, ties to even ([round64]); signed zeros are not told
    apart.  JavaScript strings are modelled as [string], sequences of 8-bit
    code units (Latin-1); [toLowerCase] and [toUpperCase] are the
    JavaScript functions on these units.  Code units from U+0100 on are not
    covered (U+212A KELVIN SIGN is lower-cased to "k"). *)

From Stdlib Require Import Ascii String QArith Qround Qminmax Qpower Lqa.
From stdpp Require Import base list strings pretty.

Set Default Proof Using "Type".
Local Open Scope string_scope.

(** ** JavaScript string primitives *)

Module JsString.

(** One code unit of [String.prototype.toLowerCase] on 8-bit units: the
    capitals A-Z and U+00C0 to U+00DE (without the sign U+00D7) move up by
    32, every other unit stays. *)
Definition lower_unit (c : ascii) : ascii :=
  let n := N_of_ascii c in
  if (((65 <=? n) && (n <=? 90)) || ((192 <=? n) && (n <=? 222) && negb (n =? 215)))%N
  then ascii_of_N (n + 32) else c.


Fixpoint toLowerCase (s : string) : string :=
  match s with
  | EmptyString => EmptyString
  | String c s' => String (lower_unit c) (toLowerCase s')
  end.


(** [s.startsWith(p)]. *)
Definition startsWith (s p : string) : bool := String.prefix p s.

(** [s.includes(needle)]: the needle occurs at some offset of [s]. *)
Fixpoint includes (s needle : string) : bool :=
  String.prefix needle s ||
  match s with
  | EmptyString => false
  | String _ s' => includes s' needle
  end.

(** [s.replace(pat, by)] for a string pattern: the first occurrence only
    (the replacement strings of the source hold no [$] pattern). *)
Fixpoint replace (s pat by_ : string) : string :=
  if String.prefix pat s then by_ ++ String.substring (String.length pat) (String.length s) s
  else match s with
       | EmptyString => EmptyString
       | String c s' => String c (replace s' pat by_)
       end.

(** Truthiness of a string: [!s] holds exactly for the empty string. *)
Definition truthy (s : string) : bool :=
  match s with EmptyString => false | _ => true end.

End JsString.

(** ** JavaScript numbers

    A number is [NaN], an infinity, or a double given by its value.  The
    arithmetic of the source is IEEE 754 binary64: the exact result, rounded
    to the nearest double, ties to even; [round64] does the rounding of a
    rational, with the subnormal range and the overflow to an infinity. *)
Inductive JsNumber := NaN | NegInf | Fin (q : Q) | PosInf.

Definition pow2 (e : Z) : Q := (2 ^ e)%Q.

(** The binade of a positive [x]: the [e] with [2^e <= x < 2^(e+1)]. *)
Definition ilog2 (x : Q) : Z :=
  let e := (Z.log2 (Qnum x) - Z.log2 (Z.pos (Qden x)))%Z in
  if Qle_bool (pow2 e) x then e else (e - 1)%Z.

(** The nearest integer, the even one at a tie. *)
Definition rne (x : Q) : Z :=
  let f := Qfloor x in
  match (x - inject_Z f ?= 1 # 2)%Q with
  | Lt => f
  | Eq => if Z.even f then f else (f + 1)%Z
  | Gt => (f + 1)%Z
  end.

(** The doubles around a positive [x] are the multiples of [2^(ulp_exp x)]:
    53 significant bits, and [2^-1074] in the subnormal range. *)
Definition ulp_exp (x : Q) : Z := Z.max (ilog2 x - 52) (-1074).

Definition nearest (x : Q) : Q :=
  (inject_Z (rne (x / pow2 (ulp_exp x))) * pow2 (ulp_exp x))%Q.

(** Rounding of a positive [x]; from [2^1024] on the result is infinite. *)
Definition round_pos (x : Q) : JsNumber :=
  if Qle_bool (pow2 1024) (nearest x) then PosInf else Fin (Qred (nearest x)).

Definition js_opp (x : JsNumber) : JsNumber :=
  match x with
  | NaN => NaN
  | NegInf => PosInf
  | Fin q => Fin (- q)
  | PosInf => NegInf
  end.

Definition round64 (x : Q) : JsNumber :=
  match (x ?= 0)%Q with
  | Eq => Fin 0
  | Gt => round_pos x
  | Lt => js_opp (round_pos (- x))
  end.

(** The value is a double. *)
Definition is_double (q : Q) : bool :=
  match round64 q with
  | Fin q' => Qeq_bool q' q
  | _ => false
  end.

(** [x + y] *)
Definition js_add (x y : JsNumber) : JsNumber :=
  match x, y with
  | NaN, _ | _, NaN => NaN
  | PosInf, NegInf | NegInf, PosInf => NaN
  | PosInf, _ | _, PosInf => PosInf
  | NegInf, _ | _, NegInf => NegInf
  | Fin a, Fin b => round64 (a + b)
  end.

(** [x * y] *)
Definition js_mul (x y : JsNumber) : JsNumber :=
  match x, y with
  | NaN, _ | _, NaN => NaN
  | Fin a, Fin b => round64 (a * b)
  | Fin a, PosInf | PosInf, Fin a =>
      match (a ?= 0)%Q with Eq => NaN | Gt => PosInf | Lt => NegInf end
  | Fin a, NegInf | NegInf, Fin a =>
      match (a ?= 0)%Q with Eq => NaN | Gt => NegInf | Lt => PosInf end
  | PosInf, PosInf | NegInf, NegInf => PosInf
  | PosInf, NegInf | NegInf, PosInf => NegInf
  end.

(** [x <= y] *)
Definition js_le (x y : JsNumber) : Prop :=
  match x, y with
  | NaN, _ | _, NaN => False
  | NegInf, _ | _, PosInf => True
  | Fin a, Fin b => (a <= b)%Q
  | _, _ => False
  end.

(** [Math.max(x, y)] and [Math.min(x, y)]: [NaN] when an argument is. *)
Definition Math_max (x y : JsNumber) : JsNumber :=
  match x, y with
  | NaN, _ | _, NaN => NaN
  | PosInf, _ | _, PosInf => PosInf
  | NegInf, z | z, NegInf => z
  | Fin a, Fin b => if Qle_bool a b then Fin b else Fin a
  end.

Definition Math_min (x y : JsNumber) : JsNumber :=
  match x, y with
  | NaN, _ | _, NaN => NaN
  | NegInf, _ | _, NegInf => NegInf
  | PosInf, z | z, PosInf => z
  | Fin a, Fin b => if Qle_bool a b then Fin a else Fin b
  end.

(** [Math.round(x)]: the nearest integer, halves upwards. *)
Definition Math_round (x : JsNumber) : JsNumber :=
  match x with
  | Fin q => Fin (inject_Z (Qfloor (q + (1 # 2))))
  | _ => x
  end.

(** *** [Number::toString], radix 10 *)

(** [v] is read back as the double [x]. *)
Definition rounds_to (v x : Q) : bool :=
  match round64 v with
  | Fin q => Qeq_bool q x
  | _ => false
  end.

(** The largest [e] with [10^e <= x], searched upwards from [e]. *)
Fixpoint ilog10_from (fuel : nat) (e : Z) (x : Q) : Z :=
  match fuel with
  | O => e
  | S fuel' => if Qle_bool (10 ^ (e + 1)) x then ilog10_from fuel' (e + 1)%Z x else e
  end.

(** Every positive double lies between [10^-330] and [10^370]. *)
Definition ilog10 (x : Q) : Z := ilog10_from 700 (-330) x.

(** The digits [s] and the position [n] of the point: the fewest digits
    [k] for which [s * 10^(n-k)] is read back as [x], of two candidates the
    closer one, the even one at a tie.  17 digits always do. *)
Fixpoint shortest_from (fuel : nat) (k n : Z) (x : Q) : Z * Z :=
  let p := (n - k)%Z in
  let s1 := Qfloor (x / 10 ^ p) in
  let s2 := (s1 + 1)%Z in
  let v1 := (inject_Z s1 * 10 ^ p)%Q in
  let v2 := (inject_Z s2 * 10 ^ p)%Q in
  let up := if (s2 =? 10 ^ k)%Z then (1%Z, (n + 1)%Z) else (s2, n) in
  match rounds_to v1 x, rounds_to v2 x with
  | true, false => (s1, n)
  | false, true => up
  | true, true =>
      match (x - v1 ?= v2 - x)%Q with
      | Lt => (s1, n)
      | Gt => up
      | Eq => if Z.even s1 then (s1, n) else up
      end
  | false, false =>
      match fuel with
      | O => (s1, n)
      | S fuel' => shortest_from fuel' (k + 1) n x
      end
  end.

Fixpoint zeros (n : nat) : string :=
  match n with O => EmptyString | S n' => String "0" (zeros n') end.

(** The text of a positive double: plain digits up to 21 places before the
    point and 6 zeros after it, the exponent form beyond. *)
Definition positive_toString (x : Q) : string :=
  let '(s, n) := shortest_from 17 1 (ilog10 x + 1) x in
  let ds := pretty s in
  let k := Z.of_nat (String.length ds) in
  if ((k <=? n) && (n <=? 21))%Z then ds ++ zeros (Z.to_nat (n - k))
  else if ((0 <? n) && (n <=? 21))%Z then
    String.substring 0 (Z.to_nat n) ds ++ "."
    ++ String.substring (Z.to_nat n) (Z.to_nat (k - n)) ds
  else if ((-6 <? n) && (n <=? 0))%Z then "0." ++ zeros (Z.to_nat (- n)) ++ ds
  else
    let e := (n - 1)%Z in
    let exponent := (if (e <? 0)%Z then "e-" else "e+") ++ pretty (Z.abs e) in
    if (k =? 1)%Z then ds ++ exponent
    else String.substring 0 1 ds ++ "."
         ++ String.substring 1 (Z.to_nat (k - 1)) ds ++ exponent.

(** [String(x)], as a template literal writes a number. *)
Definition Number_toString (x : JsNumber) : string :=
  match x with
  | NaN => "NaN"
  | PosInf => "Infinity"
  | NegInf => "-Infinity"
  | Fin q =>
      match (q ?= 0)%Q with
      | Eq => "0"
      | Gt => positive_toString q
      | Lt => "-" ++ positive_toString (- q)
      end
  end.

(** ** TransportSelector: [_detectConnectionType] (src/app.js 314-322) *)

Inductive ConnType := websocket | socketio.

Global Instance ConnType_eq_dec : EqDecision ConnType.
Proof. solve_decision. Defined.

Definition _detectConnectionType (url : string) : ConnType :=
  let lowerUrl := JsString.toLowerCase url in
  if JsString.includes lowerUrl "socket.io"
     || JsString.startsWith lowerUrl "http://"
     || JsString.startsWith lowerUrl "https://"
  then socketio
  else websocket.




(** ** Values crossing the platform boundary *)

(** What [JSON.parse] returns and what Socket.IO events carry. *)
#[warnings="-register-all"]
Inductive Json :=
| JNull
| JBool (b : bool)
| JNum (q : Q)
| JStr (s : string)
| JArr (items : list Json)
| JObj (fields : list (string * Json)).

(** Truthiness of a value ([if (v)], [v || w]). *)
Definition js_truthy (v : Json) : bool :=
  match v with
  | JNull => false
  | JBool b => b
  | JNum q => negb (Qeq_bool q 0)
  | JStr s => JsString.truthy s
  | JArr _ | JObj _ => true
  end.

(** [String(v)], as a property key is made of a value: an array is joined
    with commas, [null] inside an array is written as nothing. *)
Fixpoint js_String (v : Json) : string :=
  match v with
  | JNull => "null"
  | JBool b => if b then "true" else "false"
  | JNum q => Number_toString (Fin q)
  | JStr s => s
  | JArr items =>
      (fix join (items : list Json) : string :=
         match items with
         | [] => EmptyString
         | x :: rest =>
             (match x with JNull => EmptyString | _ => js_String x end)
             ++ match rest with [] => EmptyString | _ => "," ++ join rest end
         end) items
  | JObj _ => "[object Object]"
  end.

(** Own property of a parsed object; a key written twice keeps its last
    value, as [JSON.parse] does. *)
Fixpoint obj_get (fields : list (string * Json)) (k : string) : option Json :=
  match fields with
  | [] => None
  | (k', v) :: rest =>
      match obj_get rest k with
      | Some w => Some w
      | None => if String.eqb k' k then Some v else None
      end
  end.

(** The payload of a WebSocket [message] event ([ev.data]). *)
Inductive WsData :=
| WsText (s : string)
| WsBlob
| WsArrayBuffer.

(** [String(ev.data || EmptyString)]: the empty string is falsy and is
    replaced by the empty string. *)
Definition String_or_empty (d : WsData) : string :=
  match d with
  | WsText s => if JsString.truthy s then s else EmptyString
  | WsBlob => "[object Blob]"
  | WsArrayBuffer => "[object ArrayBuffer]"
  end.

(** The platform the class runs on: the constructors that may throw, the
    optional [io] global, and the JSON functions. *)
Record Platform := {
  (** [new WebSocket(url)]: [Some message] when the constructor throws. *)
  WebSocket_throws : string -> option string;
  (** [new URL(s)]: [inr (protocol, host)], or [inl message] when it throws. *)
  URL_parse : string -> string + (string * string);
  (** [typeof io !== 'undefined'] *)
  io_loaded : bool;
  (** [JSON.parse(text)]: [None] when it throws. *)
  JSON_parse : string -> option Json;
  JSON_stringify : Json -> string
}.

(** ** Transports, timers and observable effects *)

(** [readyState] of a WebSocket; a Socket.IO socket is [connected] exactly
    when its life is [OPEN]. *)
Inductive Life := CONNECTING | OPEN | CLOSING | CLOSED.

Global Instance Life_eq_dec : EqDecision Life.
Proof. solve_decision. Defined.

Inductive ObjKind := WebSocketObj | SocketObj.

Global Instance ObjKind_eq_dec : EqDecision ObjKind.
Proof. solve_decision. Defined.

(** A transport object on the heap; [target] is the [url] (or [baseUrl])
    captured by the handlers registered on it. *)
Record Transport := {
  tkind : ObjKind;
  target : string;
  life : Life
}.

Definition set_life (l : Life) (t : Transport) : Transport :=
  {| tkind := tkind t; target := target t; life := l |}.

(** [obj.readyState]; [None] is [undefined]. *)
Definition readyState (t : Transport) : option Life :=
  match tkind t with WebSocketObj => Some (life t) | SocketObj => None end.

(** [obj.connected]; [None] is [undefined]. *)
Definition connected (t : Transport) : option bool :=
  match tkind t with
  | SocketObj => Some (bool_decide (life t = OPEN))
  | WebSocketObj => None
  end.

(** A transport is live while it is connecting or open. *)
Definition live (t : Transport) : bool :=
  match life t with CONNECTING | OPEN => true | _ => false end.

Inductive TimerStatus := Pending | Fired | Cleared.

Global Instance TimerStatus_eq_dec : EqDecision TimerStatus.
Proof. solve_decision. Defined.

(** A [setTimeout(() => this.connect(), delay)] registration. *)
Record Timer := {
  delay : JsNumber;
  status : TimerStatus
}.

Inductive Level := lvl_info | lvl_warn | lvl_error.

(** Everything the client does that the outside can see, in order. *)
Inductive Effect :=
| Log_ws (msg : string) (status : Level)
| Log_rx (text : string)
| Log_tx (text : string)
| onOpen
| onClose (code : option N) (reason : string)
| onMessage (text : string)
| onError (message : option string)
| WebSocket_send (id : nat) (text : string)
| WebSocket_close (id : nat) (code : N) (reason : string)
| Socket_emit (id : nat) (eventName : Json) (arg : Json)
| Socket_disconnect (id : nat).

(** ** The client and its world *)

Record ConnectionClient := {
  connection : option nat;
  connectionType : option ConnType;
  _reconnectTimer : option nat;
  _manualClose : bool;
  _attempt : nat
}.

(** The part of [App.state] the class reads. [reconnectDelay = None] stands
    for a stored value whose [Number(..)] is [NaN]. *)
Record AppState := {
  serverUrl : string;
  autoReconnect : bool;
  reconnectDelay : option Q
}.

Record World := {
  this : ConnectionClient;
  App_state : AppState;
  transports : list Transport;
  timers : list Timer;
  trace : list Effect
}.

(** [new ConnectionClient({...})] (constructor, src/app.js 300-312). *)
Definition new_ConnectionClient : ConnectionClient :=
  {| connection := None; connectionType := None; _reconnectTimer := None;
     _manualClose := false; _attempt := 0 |}.

Definition initial (s : AppState) : World :=
  {| this := new_ConnectionClient; App_state := s; transports := [];
     timers := []; trace := [] |}.

(** ** A state monad with exceptions *)

Inductive Res (A : Type) :=
| Ok (a : A)
| Throw (message : string).
Arguments Ok {A} a.
Arguments Throw {A} message.

Definition M (A : Type) : Type := World -> Res A * World.

Definition ret {A} (a : A) : M A := fun w => (Ok a, w).

Definition bind {A B} (m : M A) (k : A -> M B) : M B :=
  fun w => match m w with
           | (Ok a, w') => k a w'
           | (Throw e, w') => (Throw e, w')
           end.

Definition throw {A} (message : string) : M A := fun w => (Throw message, w).

(** [try { body } catch (e) { handler(e.message) }]: what [body] did before
    it threw stays done. *)
Definition try_catch {A} (body : M A) (handler : string -> M A) : M A :=
  fun w => match body w with
           | (Ok a, w') => (Ok a, w')
           | (Throw e, w') => handler e w'
           end.

Global Instance M_ret : MRet M := @ret.
Global Instance M_bind : MBind M := fun A B k m => bind m k.

Definition gets {A} (f : World -> A) : M A := fun w => (Ok (f w), w).
Definition modify (f : World -> World) : M unit := fun w => (Ok tt, f w).

Definition with_this (f : ConnectionClient -> ConnectionClient) (w : World) : World :=
  {| this := f (this w); App_state := App_state w; transports := transports w;
     timers := timers w; trace := trace w |}.
Definition with_transports (f : list Transport -> list Transport) (w : World) : World :=
  {| this := this w; App_state := App_state w; transports := f (transports w);
     timers := timers w; trace := trace w |}.
Definition with_timers (f : list Timer -> list Timer) (w : World) : World :=
  {| this := this w; App_state := App_state w; transports := transports w;
     timers := f (timers w); trace := trace w |}.
Definition with_trace (f : list Effect -> list Effect) (w : World) : World :=
  {| this := this w; App_state := App_state w; transports := transports w;
     timers := timers w; trace := f (trace w) |}.
Definition with_App_state (s : AppState) (w : World) : World :=
  {| this := this w; App_state := s; transports := transports w;
     timers := timers w; trace := trace w |}.

Definition set_connection (v : option nat) (c : ConnectionClient) : ConnectionClient :=
  {| connection := v; connectionType := connectionType c;
     _reconnectTimer := _reconnectTimer c; _manualClose := _manualClose c;
     _attempt := _attempt c |}.
Definition set_connectionType (v : option ConnType) (c : ConnectionClient) : ConnectionClient :=
  {| connection := connection c; connectionType := v;
     _reconnectTimer := _reconnectTimer c; _manualClose := _manualClose c;
     _attempt := _attempt c |}.
Definition set_reconnectTimer (v : option nat) (c : ConnectionClient) : ConnectionClient :=
  {| connection := connection c; connectionType := connectionType c;
     _reconnectTimer := v; _manualClose := _manualClose c;
     _attempt := _attempt c |}.
Definition set_manualClose (v : bool) (c : ConnectionClient) : ConnectionClient :=
  {| connection := connection c; connectionType := connectionType c;
     _reconnectTimer := _reconnectTimer c; _manualClose := v;
     _attempt := _attempt c |}.
Definition set_attempt (v : nat) (c : ConnectionClient) : ConnectionClient :=
  {| connection := connection c; connectionType := connectionType c;
     _reconnectTimer := _reconnectTimer c; _manualClose := _manualClose c;
     _attempt := v |}.

(** Appends one effect to the trace. *)
Definition emit (e : Effect) : M unit := modify (with_trace (fun t => (t ++ [e])%list)).

(** ** Platform primitives *)

Section Machine.

Variable P : Platform.

Definition Log_ws_ (msg : string) (status : Level) : M unit := emit (Log_ws msg status).

(** [new WebSocket(url)]: throws, or allocates a WebSocket in [CONNECTING]. *)
Definition new_WebSocket (url : string) : M nat :=
  match WebSocket_throws P url with
  | Some message => throw message
  | None =>
      id ← gets (fun w => length (transports w));
      modify (with_transports (fun ts =>
        (ts ++ [{| tkind := WebSocketObj; target := url; life := CONNECTING |}])%list));;
      ret id
  end.

(** [new URL(s)], read at [protocol] and [host]. *)
Definition new_URL (s : string) : M (string * string) :=
  match URL_parse P s with
  | inl message => throw message
  | inr ph => ret ph
  end.

(** [io(baseUrl, {reconnection: false, ...})]: a socket that starts
    connecting. *)
Definition io (baseUrl : string) : M nat :=
  id ← gets (fun w => length (transports w));
  modify (with_transports (fun ts =>
    (ts ++ [{| tkind := SocketObj; target := baseUrl; life := CONNECTING |}])%list));;
  ret id.

(** [clearTimeout(handle)]: cancels the timer if it is still pending;
    [null], a fired or an already cleared timer: nothing happens. *)
Definition clear_timer (handle : option nat) (ts : list Timer) : list Timer :=
  match handle with
  | None => ts
  | Some id =>
      match ts !! id with
      | Some t =>
          if decide (status t = Pending)
          then <[id := {| delay := delay t; status := Cleared |}]> ts
          else ts
      | None => ts
      end
  end.

Definition clearTimeout (handle : option nat) : M unit :=
  modify (with_timers (clear_timer handle)).

(** [setTimeout(() => this.connect(), delay)] *)
Definition setTimeout (d : JsNumber) : M nat :=
  id ← gets (fun w => length (timers w));
  modify (with_timers (fun ts => (ts ++ [{| delay := d; status := Pending |}])%list));;
  ret id.

(** [Number(App.state.reconnectDelay) || 1500] *)
Definition Number_or_1500 (v : option Q) : Q :=
  match v with
  | Some q => if Qeq_bool q 0 then 1500 else q
  | None => 1500
  end.

(** ** Reconnect policy: [scheduleReconnect] (src/app.js 457-466)

    [r] is the value [Math.random()] returns in this call. *)
Definition jitter_of (r : Q) : JsNumber := js_mul (Fin r) (Fin 250).
Definition backoff_of (attempt : nat) : JsNumber :=
  Math_min (Fin 8000) (js_mul (Fin (inject_Z (Z.of_nat attempt))) (Fin 300)).

Definition scheduleReconnect (r : Q) : M unit :=
  h ← gets (fun w => _reconnectTimer (this w));
  clearTimeout h;;
  base ← gets (fun w => Number_or_1500 (reconnectDelay (App_state w)));
  let jitter := jitter_of r in
  backoff ← gets (fun w => backoff_of (_attempt (this w)));
  let delay := js_add (js_add (Fin base) jitter) backoff in
  modify (with_this (fun c => set_attempt (S (_attempt c)) c));;
  Log_ws_ ("Reconnecting in " ++ Number_toString (Math_round delay) ++ "ms") lvl_warn;;
  id ← setTimeout delay;
  modify (with_this (set_reconnectTimer (Some id))).

(** ** Opening a transport *)

(** [_connectWebSocket(url)] (src/app.js 339-373); the four listeners it
    registers are [on_ws_open], [on_ws_message], [on_ws_error] and
    [on_ws_close] below, dispatched by [deliver]. *)
Definition _connectWebSocket (r : Q) (url : string) : M unit :=
  try_catch
    (Log_ws_ ("Connecting via WebSocket to " ++ url) lvl_info;;
     ws ← new_WebSocket url;
     modify (with_this (set_connection (Some ws))))
    (fun message =>
       Log_ws_ ("Connection failed: " ++ message) lvl_error;;
       scheduleReconnect r).

(** [_connectSocketIO(url)] (src/app.js 375-455). *)
Definition _connectSocketIO (r : Q) (url : string) : M unit :=
  try_catch
    (let ioUrl :=
       if JsString.startsWith url "ws://" then JsString.replace url "ws://" "http://"
       else if JsString.startsWith url "wss://" then JsString.replace url "wss://" "https://"
       else url in
     urlObj ← new_URL ioUrl;
     let baseUrl := fst urlObj ++ "//" ++ snd urlObj in
     Log_ws_ ("Connecting via Socket.IO to " ++ baseUrl) lvl_info;;
     if negb (io_loaded P) then Log_ws_ "Socket.IO library not loaded" lvl_error
     else
       socket ← io baseUrl;
       modify (with_this (set_connection (Some socket))))
    (fun message =>
       Log_ws_ ("Connection failed: " ++ message) lvl_error;;
       scheduleReconnect r).

(** [connect()] (src/app.js 324-337); [getUrl] is
    [() => App.state.serverUrl] (src/app.js 947). *)
Definition connect (r : Q) : M unit :=
  url ← gets (fun w => serverUrl (App_state w));
  if negb (JsString.truthy url) then Log_ws_ "No URL configured" lvl_warn
  else
    modify (with_this (set_manualClose false));;
    modify (with_this (set_connectionType (Some (_detectConnectionType url))));;
    ty ← gets (fun w => connectionType (this w));
    if decide (ty = Some socketio) then _connectSocketIO r url
    else _connectWebSocket r url.

(** ** Listeners registered on a WebSocket (src/app.js 345-368) *)

Definition on_ws_open (url : string) : M unit :=
  modify (with_this (set_attempt 0));;
  Log_ws_ ("Connected via WebSocket to " ++ url) lvl_info;;
  emit onOpen.

Definition on_ws_message (data : WsData) : M unit :=
  let text := String_or_empty data in
  emit (Log_rx text);;
  emit (onMessage text).

(** [ev.message || "unknown"] *)
Definition message_or_unknown (message : option string) : string :=
  match message with
  | Some m => if JsString.truthy m then m else "unknown"
  | None => "unknown"
  end.

Definition on_ws_error (message : option string) : M unit :=
  Log_ws_ ("Error: " ++ message_or_unknown message) lvl_error;;
  emit (onError message).

Definition reconnect_wanted (w : World) : bool :=
  negb (_manualClose (this w)) && autoReconnect (App_state w).

Definition on_ws_close (r : Q) (code : N) (reason : string) : M unit :=
  Log_ws_ ("Closed (code=" ++ pretty code ++ ", reason="
           ++ (if JsString.truthy reason then reason else "none") ++ ")") lvl_warn;;
  emit (onClose (Some code) reason);;
  wanted ← gets reconnect_wanted;
  if (wanted : bool) then scheduleReconnect r else ret tt.

(** ** Listeners registered on a Socket.IO socket (src/app.js 403-450) *)

Definition on_sio_connect (baseUrl : string) : M unit :=
  modify (with_this (set_attempt 0));;
  Log_ws_ ("Connected via Socket.IO to " ++ baseUrl) lvl_info;;
  emit onOpen.

Definition on_sio_message (data : Json) : M unit :=
  let text := match data with JStr s => s | _ => JSON_stringify P data end in
  emit (Log_rx text);;
  emit (onMessage text).

Definition on_sio_any (eventName : string) (args : list Json) : M unit :=
  if negb (bool_decide (eventName = "connect")) && negb (bool_decide (eventName = "disconnect"))
     && negb (bool_decide (eventName = "message")) && negb (bool_decide (eventName = "error"))
     && negb (bool_decide (eventName = "connect_error"))
  then
    match args with
    | [JStr s] => emit (Log_rx s);; emit (onMessage s)
    | _ =>
        let text := JSON_stringify P (JObj [("event", JStr eventName); ("data", JArr args)]) in
        emit (Log_rx text);;
        emit (onMessage text)
    end
  else ret tt.

Definition on_sio_error (message : option string) : M unit :=
  Log_ws_ ("Error: " ++ message_or_unknown message) lvl_error;;
  emit (onError message).

Definition on_sio_disconnect (r : Q) (reason : string) : M unit :=
  Log_ws_ ("Disconnected (reason: " ++ reason ++ ")") lvl_warn;;
  emit (onClose None reason);;
  wanted ← gets reconnect_wanted;
  if (wanted : bool) then scheduleReconnect r else ret tt.

Definition on_sio_connect_error (r : Q) (message : string) : M unit :=
  Log_ws_ ("Connection error: " ++ message) lvl_error;;
  wanted ← gets reconnect_wanted;
  if (wanted : bool) then scheduleReconnect r else ret tt.

(** ** Methods of the transport objects, as the platform runs them *)

Definition lookup_transport (id : nat) : M (option Transport) :=
  gets (fun w => transports w !! id).

Definition update_life (id : nat) (l : Life) : M unit :=
  modify (with_transports (fun ts =>
    match ts !! id with
    | Some t => <[id := set_life l t]> ts
    | None => ts
    end)).

(** [ws.close(code, reason)]: a connecting or open WebSocket starts
    closing; its [close] event comes later. *)
Definition WebSocket_close_call (id : nat) (code : N) (reason : string) : M unit :=
  emit (WebSocket_close id code reason);;
  t ← lookup_transport id;
  match life <$> t with
  | Some CONNECTING | Some OPEN => update_life id CLOSING
  | _ => ret tt
  end.

(** [this.connection.disconnect()]: a WebSocket has no such method, the
    call throws a [TypeError].  A socket is closed at once, and when it was
    connected socket.io-client runs the [disconnect] listener inside the
    call, with reason ["io client disconnect"]. *)
Definition Socket_disconnect_call (r : Q) (id : nat) : M unit :=
  t ← lookup_transport id;
  match t with
  | Some t =>
      match tkind t with
      | SocketObj =>
          emit (Socket_disconnect id);;
          update_life id CLOSED;;
          if decide (life t = OPEN) then on_sio_disconnect r "io client disconnect"
          else ret tt
      | WebSocketObj => throw "this.connection.disconnect is not a function"
      end
  | None => throw "this.connection.disconnect is not a function"
  end.

(** Event names [socket.emit] of socket.io-client refuses with an [Error]:
    [RESERVED_EVENTS.hasOwnProperty(ev)], which makes a property key of
    [ev] first, so the array [["connect"]] is refused as "connect" is. *)
Definition reserved_event (ev : Json) : bool :=
  bool_decide (js_String ev ∈ ["connect"; "connect_error"; "disconnect"; "disconnecting";
                               "newListener"; "removeListener"]).

Definition Socket_emit_call (id : nat) (ev arg : Json) : M unit :=
  if reserved_event ev then throw "reserved event name"
  else emit (Socket_emit id ev arg).

Definition WebSocket_send_call (id : nat) (text : string) : M unit :=
  emit (WebSocket_send id text).

(** ** [disconnect()] (src/app.js 468-482) *)
Definition disconnect (r : Q) : M unit :=
  modify (with_this (set_manualClose true));;
  h ← gets (fun w => _reconnectTimer (this w));
  clearTimeout h;;
  c ← gets (fun w => connection (this w));
  match c with
  | Some id =>
      ty ← gets (fun w => connectionType (this w));
      if decide (ty = Some socketio) then Socket_disconnect_call r id
      else if decide (ty = Some websocket) then
        t ← lookup_transport id;
        match t ≫= readyState with
        | Some OPEN | Some CONNECTING => WebSocket_close_call id 1000 "client-close"
        | _ => ret tt
        end
      else ret tt
  | None => ret tt
  end;;
  modify (with_this (set_connection None)).

(** ** [send(text)] (src/app.js 484-521) *)

(** [data.event] and [data.data]: [null.event] throws, a primitive or an
    array has no such property. *)
Definition get_prop (data : Json) (k : string) : M (option Json) :=
  match data with
  | JNull => throw "Cannot read properties of null"
  | JObj fields => ret (obj_get fields k)
  | _ => ret None
  end.

Definition opt_truthy (v : option Json) : bool :=
  match v with Some v => js_truthy v | None => false end.

Definition send_socketio (id : nat) (text : string) : M unit :=
  try_catch
    (data ← (match JSON_parse P text with
             | Some d => ret d
             | None => throw "Unexpected token"
             end);
     ev ← get_prop data "event";
     match ev with
     | Some ev' =>
         if js_truthy ev' then
           d ← get_prop data "data";
           Socket_emit_call id ev' (if opt_truthy d then default data d else data)
         else Socket_emit_call id (JStr "message") (JStr text)
     | None => Socket_emit_call id (JStr "message") (JStr text)
     end)
    (fun _ => Socket_emit_call id (JStr "message") (JStr text)).

Definition send (text : string) : M bool :=
  c ← gets (fun w => connection (this w));
  match c with
  | None => Log_ws_ "Send failed: not connected" lvl_warn;; ret false
  | Some id =>
      ty ← gets (fun w => connectionType (this w));
      t ← lookup_transport id;
      if decide (ty = Some socketio) then
        if decide (t ≫= connected = Some true) then
          send_socketio id text;;
          emit (Log_tx text);;
          ret true
        else Log_ws_ "Send failed: Socket.IO not connected" lvl_warn;; ret false
      else if decide (ty = Some websocket) then
        if decide (t ≫= readyState = Some OPEN) then
          WebSocket_send_call id text;;
          emit (Log_tx text);;
          ret true
        else Log_ws_ "Send failed: connection not open" lvl_warn;; ret false
      else ret false
  end.

(** ** [isOpen()] (src/app.js 523-531); [None] is [undefined]. *)
Definition isOpen (w : World) : option bool :=
  match connection (this w) with
  | None => Some false
  | Some id =>
      if decide (connectionType (this w) = Some socketio) then
        transports w !! id ≫= connected
      else if decide (connectionType (this w) = Some websocket) then
        Some (bool_decide (transports w !! id ≫= readyState = Some OPEN))
      else Some false
  end.

(** ** Events of the host and the step function *)

(** What the platform reports on a transport object. *)
Inductive Event :=
| ev_ws_open
| ev_ws_message (data : WsData)
| ev_ws_error (message : option string)
| ev_ws_close (code : N) (reason : string)
| ev_sio_connect
| ev_sio_message (data : Json)
| ev_sio_any (eventName : string) (args : list Json)
| ev_sio_error (message : option string)
| ev_sio_disconnect (reason : string)
| ev_sio_connect_error (message : string).

(** Runs the listener registered for [e] on transport [id].  The platform
    reports an event only in a state of the transport that allows it
    (a WebSocket opens from [CONNECTING], delivers messages while [OPEN],
    closes once), and moves the transport before the listener runs; an
    event that is not enabled is ignored. *)
Definition deliver (r : Q) (id : nat) (e : Event) : M unit :=
  t ← lookup_transport id;
  match t with
  | None => ret tt
  | Some t =>
      match tkind t, e with
      | WebSocketObj, ev_ws_open =>
          if decide (life t = CONNECTING)
          then update_life id OPEN;; on_ws_open (target t) else ret tt
      | WebSocketObj, ev_ws_message data =>
          if decide (life t = OPEN) then on_ws_message data else ret tt
      | WebSocketObj, ev_ws_error message =>
          if decide (life t = CLOSED) then ret tt else on_ws_error message
      | WebSocketObj, ev_ws_close code reason =>
          if decide (life t = CLOSED) then ret tt
          else update_life id CLOSED;; on_ws_close r code reason
      | SocketObj, ev_sio_connect =>
          if decide (life t = CONNECTING)
          then update_life id OPEN;; on_sio_connect (target t) else ret tt
      | SocketObj, ev_sio_message data =>
          if decide (life t = OPEN) then on_sio_message data else ret tt
      | SocketObj, ev_sio_any eventName args =>
          if decide (life t = OPEN) then on_sio_any eventName args else ret tt
      | SocketObj, ev_sio_error message =>
          if decide (life t = CLOSED) then ret tt else on_sio_error message
      | SocketObj, ev_sio_disconnect reason =>
          if decide (life t = OPEN)
          then update_life id CLOSED;; on_sio_disconnect r reason else ret tt
      | SocketObj, ev_sio_connect_error message =>
          if decide (life t = CONNECTING)
          then update_life id CLOSED;; on_sio_connect_error r message else ret tt
      | _, _ => ret tt
      end
  end.

(** A pending reconnect timer fires: [() => this.connect()]. *)
Definition fire_timer (r : Q) (id : nat) : M unit :=
  ts ← gets timers;
  match ts !! id with
  | Some t =>
      if decide (status t = Pending) then
        modify (with_timers (fun ts => <[id := {| delay := delay t; status := Fired |}]> ts));;
        connect r
      else ret tt
  | None => ret tt
  end.

Inductive Input :=
| call_connect
| call_disconnect
| call_send (text : string)
| timer_fires (id : nat)
| transport_event (id : nat) (e : Event)
| settings_changed (s : AppState).

(** One turn of the event loop; [r] is what [Math.random()] returns if the
    turn asks for it. *)
Definition step (r : Q) (i : Input) : M unit :=
  match i with
  | call_connect => connect r
  | call_disconnect => disconnect r
  | call_send text => send text;; ret tt
  | timer_fires id => fire_timer r id
  | transport_event id e => deliver r id e
  | settings_changed s => modify (with_App_state s)
  end.

(** The world after a computation, whether it returned or threw. *)
Definition exec {A} (m : M A) (w : World) : World := snd (m w).

(** The value a computation returns, [None] when it throws. *)
Definition result {A} (m : M A) (w : World) : option A :=
  match fst (m w) with Ok a => Some a | Throw _ => None end.

Fixpoint run (w : World) (turns : list (Input * Q)) : World :=
  match turns with
  | [] => w
  | (i, r) :: rest => run (exec (step r i) w) rest
  end.

(** The random draws of a run are what [Math.random()] can return. *)
Definition unit_interval (r : Q) : Prop := (0 <= r /\ r < 1)%Q.

(** Worlds the client can be in, started from a fresh client. *)
Inductive reachable (s : AppState) : World -> Prop :=
| reach_initial : reachable s (initial s)
| reach_step w r i : reachable s w -> reachable s (exec (step r i) w).

(** The timers that can still fire, and the transports that are live. *)
Definition pending_timers (w : World) : list Timer :=
  filter (fun t => status t = Pending) (timers w).

Definition live_transports (w : World) : list Transport :=
  filter (fun t => live t = true) (transports w).

(** The effects a computation adds to the trace. *)
Definition emitted {A} (m : M A) (w : World) : list Effect :=
  drop (length (trace w)) (trace (exec m w)).

End Machine.

(** ** A concrete platform for the examples

    A browser whose [WebSocket] and [URL] constructors reject a target with
    the port 99999 (a port above 65535 does not parse), whose [URL]
    constructor reads [http://host] and [https://host] targets, and whose
    [JSON.parse] is given on the texts the examples send (no example reaches
    [JSON.stringify]). *)
Module Sample.

Definition dq : string := String "034"%char EmptyString.

(** The text [{"event":"chat","data":"hi"}]. *)
Definition chat_text : string :=
  "{" ++ dq ++ "event" ++ dq ++ ":" ++ dq ++ "chat" ++ dq ++ ","
      ++ dq ++ "data" ++ dq ++ ":" ++ dq ++ "hi" ++ dq ++ "}".

Definition bad_port (s : string) : bool := JsString.includes s ":99999".


Fixpoint host_of (s : string) : string :=
  match s with
  | EmptyString => EmptyString
  | String c s' => if Ascii.eqb c "/" then EmptyString else String c (host_of s')
  end.

Definition parse_url (s : string) : string + (string * string) :=
  if bad_port s then inl "Invalid URL"
  else if JsString.startsWith s "http://"
       then inr ("http:", host_of (String.substring 7 (String.length s) s))
  else if JsString.startsWith s "https://"
       then inr ("https:", host_of (String.substring 8 (String.length s) s))
  else inl "Invalid URL".

(** The text [{"event":["connect"]}]. *)
Definition reserved_text : string :=
  "{" ++ dq ++ "event" ++ dq ++ ":[" ++ dq ++ "connect" ++ dq ++ "]}".

Definition parse_json (text : string) : option Json :=
  if String.eqb text chat_text
  then Some (JObj [("event", JStr "chat"); ("data", JStr "hi")])
  else if String.eqb text reserved_text
  then Some (JObj [("event", JArr [JStr "connect"])])
  else None.

Definition browser : Platform :=
  {| WebSocket_throws url :=
       if bad_port url then Some "The URL is invalid." else None;
     URL_parse := parse_url;
     io_loaded := true;
     JSON_parse := parse_json;
     JSON_stringify := fun _ => "{}" |}.

Definition settings (url : string) (auto : bool) : AppState :=
  {| serverUrl := url; autoReconnect := auto; reconnectDelay := Some 1500%Q |}.

(** [connect()] to ws://host/x, and the WebSocket opens. *)
Definition ws_opened : World :=
  run browser (initial (settings "ws://host/x" true))
    [(call_connect, 0%Q); (transport_event 0 ev_ws_open, 0%Q)].

(** ... then the server drops the connection: a reconnect is scheduled. *)
Definition ws_dropped : World :=
  run browser ws_opened
    [(transport_event 0 (ev_ws_close 1006 EmptyString), (1 # 2)%Q)].

(** The same with auto-reconnect switched off. *)
Definition ws_opened_no_auto : World :=
  run browser (initial (settings "ws://host/x" false))
    [(call_connect, 0%Q); (transport_event 0 ev_ws_open, 0%Q)].

(** [connect()] to https://host, and the Socket.IO socket connects. *)
Definition sio_opened : World :=
  run browser (initial (settings "https://host" true))
    [(call_connect, 0%Q); (transport_event 0 ev_sio_connect, 0%Q)].

(** [connect()] twice in a row. *)
Definition connected_twice : World :=
  run browser (initial (settings "ws://host/x" true))
    [(call_connect, 0%Q); (call_connect, 0%Q)].

(** A Socket.IO socket is open, the target is changed to ws://host:99999
    and [connect()] is called: the [WebSocket] constructor throws, and the
    open socket stays in [this.connection] under the kind websocket; then
    the target is set to ws://host/x. *)
Definition socket_kept : World :=
  run browser sio_opened
    [(settings_changed (settings "ws://host:99999" true), 0%Q);
     (call_connect, 0%Q);
     (settings_changed (settings "ws://host/x" true), 0%Q)].

(** [connect()] to ws://host/x, the WebSocket opens, the target is changed
    to https://host:99999 and [connect()] is called again: the [URL]
    constructor throws, the WebSocket stays in [this.connection]. *)
Definition switched_target : World :=
  run browser ws_opened
    [(settings_changed (settings "https://host:99999" true), 0%Q);
     (call_connect, 0%Q)].

End Sample.

(** ** Vocabulary of the properties *)

(** The kind recorded in [connectionType] is the kind of the object. *)
Definition kind_agrees (k : ObjKind) (ty : ConnType) : bool :=
  match k, ty with
  | WebSocketObj, websocket | SocketObj, socketio => true
  | _, _ => false
  end.

(** A transport exists and is open for its kind. *)
Definition open_for_kind (w : World) : bool :=
  match connection (this w), connectionType (this w) with
  | Some id, Some ty =>
      match transports w !! id with
      | Some t => kind_agrees (tkind t) ty && bool_decide (life t = OPEN)
      | None => false
      end
  | _, _ => false
  end.

(** What [send] emits on an open Socket.IO socket: the event named by the
    [event] field of a text that parses to an object (with its [data] field,
    or the whole object), and otherwise a [message] event with the text. *)
Definition socketio_emission (P : Platform) (text : string) : Json * Json :=
  match JSON_parse P text with
  | Some (JObj fields) =>
      match obj_get fields "event" with
      | Some ev =>
          if js_truthy ev && negb (reserved_event ev)
          then (ev, match obj_get fields "data" with
                    | Some d => if js_truthy d then d else JObj fields
                    | None => JObj fields
                    end)
          else (JStr "message", JStr text)
      | None => (JStr "message", JStr text)
      end
  | _ => (JStr "message", JStr text)
  end.


(** The platform reports the end of transport [t]. *)
Definition is_close_event (t : Transport) (e : Event) : bool :=
  match tkind t, e with
  | WebSocketObj, ev_ws_close _ _ => negb (bool_decide (life t = CLOSED))
  | SocketObj, ev_sio_disconnect _ => bool_decide (life t = OPEN)
  | _, _ => false
  end.

(** The platform reports that transport [t] is open. *)
Definition is_open_event (t : Transport) (e : Event) : bool :=
  match tkind t, e with
  | WebSocketObj, ev_ws_open | SocketObj, ev_sio_connect =>
      bool_decide (life t = CONNECTING)
  | _, _ => false
  end.

(** At most one transport is connecting or open. *)
Definition at_most_one_live (w : World) : Prop :=
  forall i j ti tj,
    transports w !! i = Some ti -> transports w !! j = Some tj ->
    live ti = true -> live tj = true -> i = j.

(** Calls of [connect()] and [disconnect()] (and changes of the settings in
    between) in which no [connect()] follows another [connect()] without a
    [disconnect()] in between; [connected_before] tells whether the last call
    was a [connect()]. *)
Fixpoint disciplined (connected_before : bool) (turns : list (Input * Q)) : bool :=
  match turns with
  | [] => true
  | (call_connect, _) :: rest => negb connected_before && disciplined true rest
  | (call_disconnect, _) :: rest => disciplined false rest
  | (settings_changed _, _) :: rest => disciplined connected_before rest
  | _ => false
  end.

(** No turn of the run is an explicit [connect()] call. *)
Definition no_connect_call (turns : list (Input * Q)) : Prop :=
  Forall (fun turn => fst turn <> call_connect) turns.

(** How the construction of a transport for a target ends: a transport of
    some kind, an exception, or the missing [io] global. *)
Inductive Construction :=
| Constructed (k : ObjKind) (target : string)
| Threw (message : string)
| NotLoaded.

Definition construction (P : Platform) (url : string) : Construction :=
  match _detectConnectionType url with
  | websocket =>
      match WebSocket_throws P url with
      | Some message => Threw message
      | None => Constructed WebSocketObj url
      end
  | socketio =>
      match URL_parse P
              (if JsString.startsWith url "ws://" then JsString.replace url "ws://" "http://"
               else if JsString.startsWith url "wss://"
                    then JsString.replace url "wss://" "https://"
               else url) with
      | inl message => Threw message
      | inr urlObj =>
          if io_loaded P then Constructed SocketObj (fst urlObj ++ "//" ++ snd urlObj)
          else NotLoaded
      end
  end.

(** The world [scheduleReconnect] leaves behind. *)
Definition scheduled (r : Q) (w : World) : World :=
  {| this := set_reconnectTimer (Some (length (timers w)))
               (set_attempt (S (_attempt (this w))) (this w));
     App_state := App_state w;
     transports := transports w;
     timers := (clear_timer (_reconnectTimer (this w)) (timers w)
                ++ [{| delay := js_add (js_add (Fin (Number_or_1500
                                                       (reconnectDelay (App_state w))))
                                          (jitter_of r))
                                  (backoff_of (_attempt (this w)));
                       status := Pending |}])%list;
     trace := (trace w
               ++ [Log_ws ("Reconnecting in "
                           ++ Number_toString
                                (Math_round
                                   (js_add (js_add (Fin (Number_or_1500
                                                           (reconnectDelay (App_state w))))
                                              (jitter_of r))
                                      (backoff_of (_attempt (this w)))))
                           ++ "ms") lvl_warn])%list |}.

(** The world after a transport was constructed and stored. *)
Definition constructed (k : ObjKind) (tg : string) (w : World) : World :=
  with_this (set_connection (Some (length (transports w))))
    (with_transports
       (fun ts => (ts ++ [{| tkind := k; target := tg; life := CONNECTING |}])%list) w).

(** The reconnect state is [{0, none, false}]: no attempt counted, no timer
    pending, no manual close requested. *)
Definition reconnect_state_reset (w : World) : Prop :=
  _attempt (this w) = 0 /\ pending_timers w = [] /\ _manualClose (this w) = false.

(** What a listener can do to the client: nothing beyond resetting the
    attempt counter, or a run of [scheduleReconnect] when a reconnect is
    wanted. *)
Inductive handler_effect (r : Q) (w w' : World) : Prop :=
| he_quiet :
    this w' = this w \/ this w' = set_attempt 0 (this w) ->
    timers w' = timers w ->
    handler_effect r w w'
| he_scheduled w0 :
    w' = scheduled r w0 -> this w0 = this w -> timers w0 = timers w ->
    App_state w0 = App_state w -> reconnect_wanted w = true ->
    length (transports w0) = length (transports w) ->
    handler_effect r w w'.


(** Every timer that can still fire is the one in [_reconnectTimer]. *)
Definition timer_tracked (w : World) : Prop :=
  forall i t, timers w !! i = Some t -> status t = Pending ->
              _reconnectTimer (this w) = Some i.

(** Every live transport is the one in [connection], and is of the recorded
    kind. *)
Definition live_is_referenced (w : World) : Prop :=
  forall i t, transports w !! i = Some t -> live t = true ->
              connection (this w) = Some i
              /\ exists ty, connectionType (this w) = Some ty
                            /\ kind_agrees (tkind t) ty = true.

(** The client was told to stay closed and no reconnect can fire. *)
Definition quiescent (w : World) : Prop :=
  _manualClose (this w) = true
  /\ forall i t, timers w !! i = Some t -> status t <> Pending.

(** No transport is connecting or open. *)
Definition none_live (w : World) : Prop :=
  forall i t, transports w !! i = Some t -> live t = false.

Definition idle (w : World) : bool :=
  forallb (fun t => negb (live t)) (transports w).

(** The turn runs [connect()]: a call, or a reconnect timer that fires. *)
Definition runs_connect (w : World) (i : Input) : bool :=
  match i with
  | call_connect => true
  | timer_fires id => bool_decide (status <$> timers w !! id = Some Pending)
  | _ => false
  end.

(** Every [connect()] of the run, called or started by the reconnect
    timer, begins while no transport is connecting or open. *)
Fixpoint connects_when_idle (P : Platform) (w : World) (turns : list (Input * Q)) : bool :=
  match turns with
  | [] => true
  | (i, r) :: rest =>
      (negb (runs_connect w i) || idle w)
      && connects_when_idle P (exec (step P r i) w) rest
  end.

Ltac unfold_m :=
  unfold emitted, exec, result, Log_ws_, emit, mbind, M_bind, bind, ret, gets, modify,
    throw, try_catch in *.

(** * The page around the client *)

(** ** Numbers of the settings form (src/app.js 13, 643-646, 794-797) *)

(** [const clamp = (n, a, b) => Math.min(Math.max(n, a), b)] *)
Definition clamp (n a b : JsNumber) : JsNumber := Math_min (Math_max n a) b.

(** [n || d] on numbers: 0 and [NaN] are falsy. *)
Definition number_or (n d : JsNumber) : JsNumber :=
  match n with
  | NaN => d
  | Fin q => if Qeq_bool q 0 then d else n
  | _ => n
  end.

(** The input listener of the delay field: [value] is
    [Number(el.reconnectDelay.value)]; the result is stored in
    [App.state.reconnectDelay]. *)
Definition reconnectDelay_input (value : JsNumber) : JsNumber :=
  clamp (number_or value (Fin 0)) (Fin 250) (Fin 60000).

(** [Validators.numberIn(v, min, max)]; [n] is [Number(v)]. *)
Definition numberIn (n : JsNumber) (min max : Q) : bool :=
  match n with
  | Fin q => Qle_bool min q && Qle_bool q max
  | _ => false
  end.

(** A stored number as the client's settings hold it. *)
Definition as_setting (n : JsNumber) : option Q :=
  match n with Fin q => Some q | _ => None end.

(** ** [Validators.url] (src/app.js 790-793)

    The regular expression of the source, matched by hand: from the start
    a scheme (ws, wss, http or https), [://], a host of one or more
    characters that are neither white space nor [:] nor [/], then optionally
    [:] and one or more digits, then optionally [/] and any number of
    characters that are not white space, up to the end of the string.  The
    host class shuts out [:] and [/], so the host is the longest such run
    and the expression has one way to match. *)

(** [\s] on 8-bit code units: tab to carriage return, space, no-break space. *)
Definition is_space (c : ascii) : bool :=
  let n := N_of_ascii c in
  (((9 <=? n) && (n <=? 13)) || (n =? 32) || (n =? 160))%N.

(** [\d] *)
Definition is_digit (c : ascii) : bool :=
  let n := N_of_ascii c in ((48 <=? n) && (n <=? 57))%N.

(** The class of the host group: no white space, no [:], no [/]. *)
Definition host_char (c : ascii) : bool :=
  negb (is_space c) && negb (Ascii.eqb c ":") && negb (Ascii.eqb c "/").

(** The longest prefix of characters in the class, and the rest. *)
Fixpoint span (p : ascii -> bool) (s : string) : string * string :=
  match s with
  | EmptyString => (EmptyString, EmptyString)
  | String c s' =>
      if p c then let (a, b) := span p s' in (String c a, b)
      else (EmptyString, s)
  end.

Fixpoint all_chars (p : ascii -> bool) (s : string) : bool :=
  match s with
  | EmptyString => true
  | String c s' => p c && all_chars p s'
  end.

(** The rest of [s] after the prefix [p]. *)
Fixpoint strip_prefix (p s : string) : option string :=
  match p, s with
  | EmptyString, _ => Some s
  | String a p', String b s' => if Ascii.eqb a b then strip_prefix p' s' else None
  | String _ _, EmptyString => None
  end.

(** The scheme group and the [://] after it. *)
Definition strip_scheme (v : string) : option string :=
  match strip_prefix "wss://" v with
  | Some rest => Some rest
  | None =>
  match strip_prefix "ws://" v with
  | Some rest => Some rest
  | None =>
  match strip_prefix "https://" v with
  | Some rest => Some rest
  | None => strip_prefix "http://" v
  end end end.

(** The optional path group, up to the end. *)
Definition path_to_end (r : string) : bool :=
  match r with
  | EmptyString => true
  | String c p => Ascii.eqb c "/" && all_chars (fun c => negb (is_space c)) p
  end.

(** The optional port group and the optional path group, up to the end. *)
Definition port_path_to_end (r : string) : bool :=
  match r with
  | String c r' =>
      if Ascii.eqb c ":" then
        let (digits, r2) := span is_digit r' in
        JsString.truthy digits && path_to_end r2
      else path_to_end r
  | EmptyString => true
  end.

Definition Validators_url (v : string) : bool :=
  match strip_scheme v with
  | Some rest =>
      let (host, r) := span host_char rest in
      JsString.truthy host && port_path_to_end r
  | None => false
  end.

(** ** [escapeHTML] (src/app.js 225-227 and 1004-1006) *)

(** The replacement of one character: the five characters of the class
    (ampersand, less-than, greater-than, double quote, apostrophe) become
    entities, every other character stays. *)
Definition escape_char (c : ascii) : string :=
  if Ascii.eqb c "&" then "&amp;"
  else if Ascii.eqb c "<" then "&lt;"
  else if Ascii.eqb c ">" then "&gt;"
  else if Ascii.eqb c "034" then "&quot;"
  else if Ascii.eqb c "'" then "&#039;"
  else String c EmptyString.

Fixpoint escapeHTML (s : string) : string :=
  match s with
  | EmptyString => EmptyString
  | String c s' => escape_char c ++ escapeHTML s'
  end.

(** A character that is markup in HTML text or in an attribute value. *)
Definition is_markup (c : ascii) : bool :=
  Ascii.eqb c "<" || Ascii.eqb c ">" || Ascii.eqb c "034" || Ascii.eqb c "'".

(** ** The logger (src/app.js 53-231)

    The log body is the list of its lines, oldest first; a line keeps what
    [addLogLine] writes into it.  [now] is what [fmtTime()] returns at the
    call. *)
Module Log.

Record Line := {
  ts : string;
  level : string;
  (** the badge: its type and its escaped text *)
  badge : option (string * string);
  (** the escaped message *)
  msg : string;
  tag : string;
  shown : bool
}.

Record State := {
  body : list Line;
  filter : string;
  rx_count : nat;
  tx_count : nat;
  err_count : nat
}.

(** The logger of a fresh page: no line, filter [all], counters at 0. *)
Definition empty : State :=
  {| body := []; filter := "all"; rx_count := 0; tx_count := 0; err_count := 0 |}.

Definition tagName (level : string) : string :=
  if String.eqb level "ok" then "info"
  else if String.eqb level "warn" then "warn"
  else if String.eqb level "err" then "error"
  else if String.eqb level "rx" then "recv"
  else if String.eqb level "tx" then "sent"
  else level.

Definition shouldShow (L : State) (level : string) : bool :=
  if String.eqb (filter L) "all" then true else String.eqb level (filter L).

Definition with_body (b : list Line) (L : State) : State :=
  {| body := b; filter := filter L; rx_count := rx_count L; tx_count := tx_count L;
     err_count := err_count L |}.

(** [addLogLine(level, badge, msg)]: the line is appended, and the oldest
    line goes when there are more than 2000. *)
Definition addLogLine (now level : string) (b : option (string * string)) (m : string)
    (L : State) : State :=
  let line := {| ts := now; level := level; badge := b; msg := escapeHTML m;
                 tag := tagName level; shown := shouldShow L level |} in
  let appended := (body L ++ [line])%list in
  with_body (if Nat.ltb 2000 (List.length appended) then tail appended else appended) L.

Definition append (now level m : string) (L : State) : State :=
  let b := if String.eqb level "rx" then Some ("rx", "RX")
           else if String.eqb level "tx" then Some ("tx", "TX")
           else None in
  addLogLine now level b m L.

Definition appendWithBadge (now level badgeText m badgeType : string) (L : State) : State :=
  addLogLine now level (Some (badgeType, escapeHTML badgeText)) m L.

Definition info (now m : string) (L : State) : State := append now "ok" m L.
Definition warn (now m : string) (L : State) : State := append now "warn" m L.

Definition error (now m : string) (L : State) : State :=
  append now "err" m
    {| body := body L; filter := filter L; rx_count := rx_count L; tx_count := tx_count L;
       err_count := S (err_count L) |}.

Definition rx (now m : string) (L : State) : State :=
  append now "rx" m
    {| body := body L; filter := filter L; rx_count := S (rx_count L);
       tx_count := tx_count L; err_count := err_count L |}.

Definition tx (now m : string) (L : State) : State :=
  append now "tx" m
    {| body := body L; filter := filter L; rx_count := rx_count L;
       tx_count := S (tx_count L); err_count := err_count L |}.

(** [levelMap[status] || "ok"] for the three statuses the callers pass. *)
Definition levelMap (status : Level) : string :=
  match status with lvl_info => "ok" | lvl_warn => "warn" | lvl_error => "err" end.

Definition ws (now m : string) (status : Level) (L : State) : State :=
  appendWithBadge now (levelMap status) "WS" m "ws" L.

Definition instance (now m : string) (status : Level) (L : State) : State :=
  appendWithBadge now (levelMap status) "INST" m "instance" L.

Definition action (now m : string) (status : Level) (L : State) : State :=
  appendWithBadge now (levelMap status) "ACT" m "action" L.

Definition raw (now line level : string) (L : State) : State := append now level line L.

Definition clear (L : State) : State := with_body [] L.

End Log.

(** ** The message router: [App.handleWSMessage] (src/app.js 909-942) *)

(** [s.indexOf(c)]: [None] is -1. *)
Fixpoint indexOf (c : ascii) (s : string) : option nat :=
  match s with
  | EmptyString => None
  | String d s' => if Ascii.eqb d c then Some 0 else S <$> indexOf c s'
  end.

(** [s.slice(from)] and [s.slice(0, to)] *)
Definition slice_from (from : nat) (s : string) : string :=
  String.substring from (String.length s - from) s.

Definition slice_to (to : nat) (s : string) : string := String.substring 0 to s.

(** The call the router ends in. *)
Inductive RouterCall :=
| do_Log_raw (line level : string)
| do_setInstanceInfo (url key val : string)
| do_Log_info (val : string)
| do_Log_warn (val : string)
| do_Log_error (val : string).

Definition handleWSMessage (serverUrl text : string) : RouterCall :=
  match indexOf ":" text with
  | None => do_Log_raw text "ok"
  | Some idx =>
      let key := slice_to idx text in
      let val := slice_from (idx + 1) text in
      if String.eqb key "name" || String.eqb key "firmware" || String.eqb key "uptime"
      then do_setInstanceInfo serverUrl key val
      else if String.eqb key "log" then do_Log_info val
      else if String.eqb key "warn" then do_Log_warn val
      else if String.eqb key "error" then do_Log_error val
      else do_Log_raw (key ++ ":" ++ val) "ok"
  end.

(** What a router call does to the logger ([UI.setInstanceInfo] writes no
    log line). *)
Definition run_RouterCall (now : string) (c : RouterCall) (L : Log.State) : Log.State :=
  match c with
  | do_Log_raw line level => Log.raw now line level L
  | do_setInstanceInfo _ _ _ => L
  | do_Log_info val => Log.info now val L
  | do_Log_warn val => Log.warn now val L
  | do_Log_error val => Log.error now val L
  end.

(** The logger while the client runs: the log calls of the client, and
    the router behind [onMessage] (src/app.js 958); [clock n] is the time of
    the [n]-th effect. *)
Definition log_effect (serverUrl now : string) (e : Effect) (L : Log.State) : Log.State :=
  match e with
  | Log_ws m status => Log.ws now m status L
  | Log_rx text => Log.rx now text L
  | Log_tx text => Log.tx now text L
  | onMessage text => run_RouterCall now (handleWSMessage serverUrl text) L
  | _ => L
  end.

Fixpoint log_effects (serverUrl : string) (clock : nat -> string) (n : nat)
    (effects : list Effect) (L : Log.State) : Log.State :=
  match effects with
  | [] => L
  | e :: rest =>
      log_effects serverUrl clock (S n) rest (log_effect serverUrl (clock n) e L)
  end.

(** The key of a routed message is [error]. *)
Definition is_error_message (e : Effect) : bool :=
  match e with
  | onMessage text =>
      match indexOf ":" text with
      | Some idx => String.eqb (slice_to idx text) "error"
      | None => false
      end
  | _ => false
  end.

Definition is_Log_rx (e : Effect) : bool :=
  match e with Log_rx _ => true | _ => false end.

Definition is_Log_tx (e : Effect) : bool :=
  match e with Log_tx _ => true | _ => false end.

(** ** The saved servers (src/app.js 716-759) *)

(** [s.trim()] on 8-bit code units. *)
Fixpoint trimStart (s : string) : string :=
  match s with
  | EmptyString => EmptyString
  | String c s' => if is_space c then trimStart s' else s
  end.

Fixpoint trimEnd (s : string) : string :=
  match s with
  | EmptyString => EmptyString
  | String c s' =>
      match trimEnd s' with
      | EmptyString => if is_space c then EmptyString else String c EmptyString
      | t => String c t
      end
  end.

Definition trim (s : string) : string := trimEnd (trimStart s).

(** An entry of the stored [instances] array. *)
Record Instance := {
  inst_url : string;
  inst_name : string;
  inst_lastError : string
}.

(** [instances.findIndex((d) => d.url === url)]; [None] is -1. *)
Fixpoint findIndex (url : string) (instances : list Instance) : option nat :=
  match instances with
  | [] => None
  | d :: rest => if String.eqb (inst_url d) url then Some 0 else S <$> findIndex url rest
  end.

(** [addOrUpdateInstance(url, { name, lastError })]; a field that is not
    passed is [None]. *)
Definition addOrUpdateInstance (url : string) (name lastError : option string)
    (instances : list Instance) : list Instance :=
  match findIndex url instances with
  | None =>
      (instances ++ [{| inst_url := url; inst_name := default EmptyString name;
                        inst_lastError := default EmptyString lastError |}])%list
  | Some i =>
      match instances !! i with
      | Some d =>
          <[i := {| inst_url := inst_url d;
                    inst_name := default (inst_name d) name;
                    inst_lastError := default (inst_lastError d) lastError |}]> instances
      | None => instances
      end
  end.

(** The part of [saveCurrentServer] that keeps the history: the new target
    goes to the front, and the last entry goes when there are more than 20. *)
Definition remember (url : string) (recent : list string) : list string :=
  if bool_decide (url ∈ recent) then recent
  else
    let unshifted := url :: recent in
    if Nat.ltb 20 (length unshifted) then removelast unshifted else unshifted.

(** [saveCurrentServer()]: [value] is the text of the target field; the
    result is the stored history and the stored instances. *)
Definition saveCurrentServer (value : string) (recent : list string)
    (instances : list Instance) : list string * list Instance :=
  let url := trim value in
  if negb (Validators_url url) then (recent, instances)
  else (remember url recent,
        addOrUpdateInstance url (Some EmptyString) (Some EmptyString) instances).

(** The entry of a target in the stored array. *)
Definition instance_of (url : string) (instances : list Instance) : option Instance :=
  match findIndex url instances with
  | Some i => instances !! i
  | None => None
  end.

(** ** Built-in actions (src/app.js 537-592) *)

(** How [Actions.run] ends: the name is not registered (a warning is
    logged), the handler returned, or the handler threw and the error is
    logged as [Error in <name>: <message>]. *)
Inductive RunOutcome :=
| Unknown_action
| Completed
| Failed (message : string).

(** [Actions.run(name, ctx, el)] over a registry; a handler gets the
    [data-message] attribute of the button. *)
Definition Actions_run (registry : string -> option (option string -> M unit))
    (name : string) (el : option string) (w : World) : RunOutcome * World :=
  match registry name with
  | None => (Unknown_action, w)
  | Some fn =>
      match fn el w with
      | (Ok _, w') => (Completed, w')
      | (Throw message, w') => (Failed message, w')
      end
  end.

(** The handler of [app:reconnect]: [ctx.ws.disconnect(); ctx.ws.connect();] *)
Definition app_reconnect (P : Platform) (r : Q) (el : option string) : M unit :=
  disconnect r;; connect P r.

(** The transport in [connection] cannot run [disconnect()]: the recorded
    kind is [socketio] but the object is no socket. *)
Definition kind_mismatch (w : World) : Prop :=
  exists id, connection (this w) = Some id
             /\ connectionType (this w) = Some socketio
             /\ tkind <$> (transports w !! id) <> Some SocketObj.

(** The pending reconnect timer fires. *)
Definition fire_pending (P : Platform) (r : Q) (w : World) : World :=
  match _reconnectTimer (this w) with
  | Some id => exec (fire_timer P r id) w
  | None => w
  end.

(** The event names the [onAny] listener of a socket passes over
    (src/app.js 418). *)
Definition passed_over (eventName : string) : bool :=
  bool_decide (eventName ∈ ["connect"; "disconnect"; "message"; "error"; "connect_error"]).

(** * Properties *)

(** ** Numbers *)

Lemma pow2_pos e : (0 < pow2 e)%Q.
Proof. apply Qpower_0_lt. reflexivity. Qed.

Lemma pow2_plus a b : (pow2 (a + b) == pow2 a * pow2 b)%Q.
Proof. apply Qpower_plus. discriminate. Qed.

Lemma pow2_succ a : (pow2 (a + 1) == 2 * pow2 a)%Q.
Proof. rewrite pow2_plus. unfold pow2 at 2. simpl. ring. Qed.

Lemma pow2_le a b : (a <= b)%Z -> (pow2 a <= pow2 b)%Q.
Proof. intros H. apply Qpower_le_compat_l; [exact H | discriminate]. Qed.

Lemma pow2_lt_inv a b : (pow2 a < pow2 b)%Q -> (a < b)%Z.
Proof. intros H. apply (Qpower_lt_compat_l_inv 2); [exact H | reflexivity]. Qed.

Lemma pow2_Z a : (0 <= a)%Z -> (inject_Z (2 ^ a) == pow2 a)%Q.
Proof. intros H. apply Zpower_Qpower. exact H. Qed.

Lemma Z_log2_pow2 n :
  (0 < n)%Z -> (pow2 (Z.log2 n) <= inject_Z n /\ inject_Z n < pow2 (Z.log2 n + 1))%Q.
Proof.
  intros Hn. destruct (Z.log2_spec n Hn) as [H1 H2].
  assert (H0 : (0 <= Z.log2 n)%Z) by apply Z.log2_nonneg.
  rewrite <- !pow2_Z by lia. rewrite <- Zle_Qle, <- Zlt_Qlt.
  replace (Z.log2 n + 1)%Z with (Z.succ (Z.log2 n)) by lia. auto.
Qed.

Lemma ilog2_spec x : (0 < x)%Q -> (pow2 (ilog2 x) <= x /\ x < pow2 (ilog2 x + 1))%Q.
Proof.
  intros Hx. destruct x as [n d]. unfold ilog2. simpl Qnum. simpl Qden.
  assert (Hn : (0 < n)%Z) by (unfold Qlt in Hx; simpl in Hx; lia).
  destruct (Z_log2_pow2 n Hn) as [Ha1 Ha2].
  destruct (Z_log2_pow2 (Z.pos d) eq_refl) as [Hb1 Hb2].
  set (a := Z.log2 n) in *. set (b := Z.log2 (Z.pos d)) in *.
  assert (Hx' : ((n # d) * inject_Z (Z.pos d) == inject_Z n)%Q).
  { unfold Qeq, Qmult, inject_Z. simpl. lia. }
  assert (Hd : (0 < inject_Z (Z.pos d))%Q) by (rewrite <- (Zlt_Qlt 0); reflexivity).
  rewrite pow2_succ in Ha2, Hb2.
  assert (He : (pow2 (a - b) * pow2 b == pow2 a)%Q).
  { rewrite <- pow2_plus. replace (a - b + b)%Z with a by lia. reflexivity. }
  pose proof (pow2_pos b) as Hpb. pose proof (pow2_pos (a - b)) as Hpe.
  destruct (Qle_bool (pow2 (a - b)) (n # d)) eqn:Hle.
  - apply Qle_bool_iff in Hle. split; [exact Hle|].
    rewrite pow2_succ. nra.
  - assert (Hlt : (n # d < pow2 (a - b))%Q).
    { apply Qnot_le_lt. intros H. apply Qle_bool_iff in H. congruence. }
    replace (a - b - 1 + 1)%Z with (a - b)%Z by lia. split; [|exact Hlt].
    assert (Hh : (pow2 (a - b) == 2 * pow2 (a - b - 1))%Q).
    { rewrite <- pow2_succ. replace (a - b - 1 + 1)%Z with (a - b)%Z by lia. reflexivity. }
    nra.
Qed.

Lemma ilog2_unique x e :
  (0 < x)%Q -> (pow2 e <= x)%Q -> (x < pow2 (e + 1))%Q -> ilog2 x = e.
Proof.
  intros Hx H1 H2. destruct (ilog2_spec x Hx) as [H3 H4].
  assert (e < ilog2 x + 1)%Z by (apply pow2_lt_inv; lra).
  assert (ilog2 x < e + 1)%Z by (apply pow2_lt_inv; lra).
  lia.
Qed.

Lemma ilog2_mono x y : (0 < x)%Q -> (x <= y)%Q -> (ilog2 x <= ilog2 y)%Z.
Proof.
  intros Hx Hxy. destruct (ilog2_spec x Hx) as [H1 _].
  destruct (ilog2_spec y ltac:(lra)) as [_ H2].
  assert (ilog2 x < ilog2 y + 1)%Z by (apply pow2_lt_inv; lra). lia.
Qed.

Lemma rne_bounds x : (Qfloor x <= rne x <= Qfloor x + 1)%Z.
Proof. unfold rne. repeat case_match; lia. Qed.

Lemma rne_Z z : rne (inject_Z z) = z.
Proof.
  unfold rne. rewrite Qfloor_Z.
  assert (H : (inject_Z z - inject_Z z ?= 1 # 2)%Q = Lt).
  { rewrite <- Qlt_alt. lra. }
  rewrite H. reflexivity.
Qed.

Lemma rne_mono x y : (x <= y)%Q -> (rne x <= rne y)%Z.
Proof.
  intros Hxy. pose proof (Qfloor_resp_le x y Hxy) as Hf.
  pose proof (rne_bounds x) as Hx. pose proof (rne_bounds y) as Hy.
  destruct (Z.eq_dec (Qfloor x) (Qfloor y)) as [He|Hne]; [|lia].
  unfold rne. rewrite <- He.
  destruct (x - inject_Z (Qfloor x) ?= 1 # 2)%Q eqn:Hcx;
    destruct (y - inject_Z (Qfloor x) ?= 1 # 2)%Q eqn:Hcy;
    try (destruct (Z.even (Qfloor x)); lia);
    exfalso;
    first [apply Qeq_alt in Hcx | apply Qlt_alt in Hcx | apply Qgt_alt in Hcx];
    first [apply Qeq_alt in Hcy | apply Qlt_alt in Hcy | apply Qgt_alt in Hcy]; lra.
Qed.

Lemma rne_le_Z x z : (x <= inject_Z z)%Q -> (rne x <= z)%Z.
Proof. intros H. rewrite <- (rne_Z z). apply rne_mono, H. Qed.

Lemma rne_ge_Z x z : (inject_Z z <= x)%Q -> (z <= rne x)%Z.
Proof. intros H. rewrite <- (rne_Z z). apply rne_mono, H. Qed.

Lemma div_pow2_le x y k : (x <= y)%Q -> (x / pow2 k <= y / pow2 k)%Q.
Proof.
  intros H. unfold Qdiv. apply Qmult_le_compat_r; [exact H|].
  apply Qlt_le_weak, Qinv_lt_0_compat, pow2_pos.
Qed.

Lemma pow2_div a k : (pow2 a / pow2 k == pow2 (a - k))%Q.
Proof. unfold pow2. rewrite Qpower_minus by discriminate. reflexivity. Qed.

Lemma ulp_exp_mono x y : (0 < x)%Q -> (x <= y)%Q -> (ulp_exp x <= ulp_exp y)%Z.
Proof. intros Hx Hxy. unfold ulp_exp. pose proof (ilog2_mono x y Hx Hxy). lia. Qed.

Lemma nearest_mono x y : (0 < x)%Q -> (x <= y)%Q -> (nearest x <= nearest y)%Q.
Proof.
  intros Hx Hxy. pose proof (ulp_exp_mono x y Hx Hxy) as Hk. unfold nearest.
  destruct (Z.eq_dec (ulp_exp x) (ulp_exp y)) as [He|Hne].
  - rewrite He. apply Qmult_le_compat_r; [|apply Qlt_le_weak, pow2_pos].
    rewrite <- Zle_Qle. apply rne_mono, div_pow2_le, Hxy.
  - assert (Hlt : (ulp_exp x < ulp_exp y)%Z) by lia.
    assert (Hy : ulp_exp y = (ilog2 y - 52)%Z) by (unfold ulp_exp in *; lia).
    assert (Hex : (ilog2 x + 1 <= ilog2 y)%Z) by (unfold ulp_exp in *; lia).
    destruct (ilog2_spec x Hx) as [_ Hx2].
    destruct (ilog2_spec y ltac:(lra)) as [Hy1 _].
    pose proof (pow2_le _ _ Hex) as Hp.
    apply Qle_trans with (pow2 (ilog2 y)).
    + (* the rounded x does not pass the next power of two *)
      assert (Hn : (0 <= ilog2 y - ulp_exp x)%Z) by lia.
      assert (Hr : (rne (x / pow2 (ulp_exp x)) <= 2 ^ (ilog2 y - ulp_exp x))%Z).
      { apply rne_le_Z. rewrite pow2_Z by exact Hn. rewrite <- pow2_div.
        apply div_pow2_le. lra. }
      rewrite Zle_Qle in Hr. rewrite pow2_Z in Hr by exact Hn.
      assert (Hs : (pow2 (ilog2 y - ulp_exp x) * pow2 (ulp_exp x) == pow2 (ilog2 y))%Q).
      { rewrite <- pow2_plus. replace (ilog2 y - ulp_exp x + ulp_exp x)%Z with (ilog2 y) by lia.
        reflexivity. }
      rewrite <- Hs. apply Qmult_le_compat_r; [exact Hr | apply Qlt_le_weak, pow2_pos].
    + assert (Hr : (2 ^ 52 <= rne (y / pow2 (ulp_exp y)))%Z).
      { apply rne_ge_Z. rewrite pow2_Z by lia.
        assert (H52 : (pow2 52 == pow2 (ilog2 y) / pow2 (ulp_exp y))%Q).
        { rewrite pow2_div. rewrite Hy. replace (ilog2 y - (ilog2 y - 52))%Z with 52%Z by lia.
          reflexivity. }
        rewrite H52. apply div_pow2_le, Hy1. }
      rewrite Zle_Qle in Hr. rewrite pow2_Z in Hr by lia.
      assert (Hs : (pow2 52 * pow2 (ulp_exp y) == pow2 (ilog2 y))%Q).
      { rewrite <- pow2_plus. rewrite Hy. replace (52 + (ilog2 y - 52))%Z with (ilog2 y) by lia.
        reflexivity. }
      rewrite <- Hs. apply Qmult_le_compat_r; [exact Hr | apply Qlt_le_weak, pow2_pos].
Qed.

Lemma nearest_nonneg x : (0 < x)%Q -> (0 <= nearest x)%Q.
Proof.
  intros Hx. unfold nearest. apply Qmult_le_0_compat; [|apply Qlt_le_weak, pow2_pos].
  rewrite <- (Zle_Qle 0). apply rne_ge_Z.
  apply Qle_shift_div_l; [apply pow2_pos|]. change (inject_Z 0) with 0%Q. lra.
Qed.

Lemma round_pos_cases x :
  (round_pos x = PosInf /\ (pow2 1024 <= nearest x)%Q)
  \/ (round_pos x = Fin (Qred (nearest x)) /\ (nearest x < pow2 1024)%Q).
Proof.
  unfold round_pos. destruct (Qle_bool (pow2 1024) (nearest x)) eqn:H.
  - left. split; [reflexivity | apply Qle_bool_iff, H].
  - right. split; [reflexivity|]. apply Qnot_le_lt. intros H'.
    apply Qle_bool_iff in H'. congruence.
Qed.

Lemma round_pos_mono x y :
  (0 < x)%Q -> (x <= y)%Q -> js_le (round_pos x) (round_pos y).
Proof.
  intros Hx Hxy. pose proof (nearest_mono x y Hx Hxy) as Hn.
  destruct (round_pos_cases x) as [[-> Hx1]|[-> Hx1]];
    destruct (round_pos_cases y) as [[-> Hy1]|[-> Hy1]]; simpl; auto.
  - lra.
  - rewrite !Qred_correct. exact Hn.
Qed.

Lemma round_pos_nonneg x : (0 < x)%Q -> js_le (Fin 0) (round_pos x).
Proof.
  intros Hx. destruct (round_pos_cases x) as [[-> _]|[-> _]]; simpl; [exact I|].
  rewrite Qred_correct. apply nearest_nonneg, Hx.
Qed.

Lemma js_le_opp x y : js_le x y -> js_le (js_opp y) (js_opp x).
Proof. destruct x, y; simpl; auto. intros H. lra. Qed.

Lemma js_le_trans x y z : js_le x y -> js_le y z -> js_le x z.
Proof. destruct x, y, z; simpl; auto; try tauto. intros. lra. Qed.

(** Rounding to the nearest double is monotone. *)
Lemma round64_mono x y : (x <= y)%Q -> js_le (round64 x) (round64 y).
Proof.
  intros Hxy. unfold round64.
  destruct (x ?= 0)%Q eqn:Hx; destruct (y ?= 0)%Q eqn:Hy;
    first [apply Qeq_alt in Hx | apply Qlt_alt in Hx | apply Qgt_alt in Hx];
    first [apply Qeq_alt in Hy | apply Qlt_alt in Hy | apply Qgt_alt in Hy];
    try (exfalso; lra).
  - simpl. lra.
  - apply round_pos_nonneg, Hy.
  - apply (js_le_opp (Fin 0)), round_pos_nonneg. lra.
  - apply js_le_opp, round_pos_mono; lra.
  - apply js_le_trans with (Fin 0).
    + apply (js_le_opp (Fin 0)), round_pos_nonneg. lra.
    + apply round_pos_nonneg, Hy.
  - apply round_pos_mono; lra.
Qed.

Lemma is_double_round q : is_double q = true -> exists q', round64 q = Fin q' /\ (q' == q)%Q.
Proof.
  unfold is_double. destruct (round64 q) as [| |q'|]; try discriminate.
  intros H. exists q'. split; [reflexivity | apply Qeq_bool_iff, H].
Qed.

(** The doubles below 1 end at [1 - 2^-53]. *)
Lemma double_below_one r :
  is_double r = true -> (0 <= r)%Q -> (r < 1)%Q -> (r <= 1 - pow2 (-53))%Q.
Proof.
  intros Hd H0 H1. destruct (Qlt_le_dec r (1 # 2)) as [Hh|Hh].
  { assert (pow2 (-53) <= 1 # 2)%Q by (vm_compute; discriminate). lra. }
  destruct (is_double_round r Hd) as (q' & Hr & Hq).
  assert (Hpos : (0 < r)%Q) by lra.
  assert (He : ilog2 r = (-1)%Z).
  { apply ilog2_unique; [exact Hpos | |]; vm_compute pow2; lra. }
  unfold round64 in Hr.
  assert (Hc : (r ?= 0)%Q = Gt) by (rewrite <- Qgt_alt; exact Hpos).
  rewrite Hc in Hr. destruct (round_pos_cases r) as [[Hr' _]|[Hr' _]]; [congruence|].
  rewrite Hr' in Hr. injection Hr as Hr. rewrite <- Hr, Qred_correct in Hq.
  unfold nearest, ulp_exp in Hq. rewrite He in Hq.
  change (Z.max (-1 - 52) (-1074)) with (-53)%Z in Hq.
  set (m := rne (r / pow2 (-53))) in *.
  change (pow2 (-53)) with (1 # 9007199254740992)%Q in *.
  assert (Hm : (m < 9007199254740992)%Z).
  { rewrite Zlt_Qlt. change (inject_Z 9007199254740992) with 9007199254740992%Q. lra. }
  assert (Hm' : (inject_Z m <= 9007199254740991)%Q).
  { change 9007199254740991%Q with (inject_Z 9007199254740991). rewrite <- Zle_Qle. lia. }
  lra.
Qed.

(** ** Strings *)

Lemma append_cons c (s t : string) : String c s ++ t = String c (s ++ t).
Proof. reflexivity. Qed.

Lemma append_empty (t : string) : EmptyString ++ t = t.
Proof. reflexivity. Qed.

Lemma prefix_iff (p s : string) :
  String.prefix p s = true <-> exists rest, s = p ++ rest.
Proof.
  revert s. induction p as [|c p IH]; intros s.
  - destruct s; simpl; split; intros _; eauto.
  - setoid_rewrite append_cons. destruct s as [|d s]; simpl.
    + split; [discriminate | intros [rest H]; discriminate].
    + destruct (ascii_dec c d) as [->|Hne].
      * rewrite IH. split; intros [rest H]; exists rest; congruence.
      * split; [discriminate | intros [rest H]; congruence].
Qed.

Lemma includes_iff (s needle : string) :
  JsString.includes s needle = true <-> exists a b, s = a ++ needle ++ b.
Proof.
  induction s as [|c s IH]; cbn [JsString.includes].
  - rewrite orb_false_r, prefix_iff. split.
    + intros [rest H]. exists EmptyString, rest. exact H.
    + intros [a [b H]]. destruct a; [eauto | discriminate].
  - rewrite orb_true_iff, IH, prefix_iff. split.
    + intros [[rest H] | [a [b H]]].
      * exists EmptyString, rest. exact H.
      * exists (String c a), b. rewrite append_cons. congruence.
    + intros [a [b H]]. destruct a as [|c' a].
      * left. eauto.
      * right. exists a, b. rewrite append_cons in H. congruence.
Qed.







(** ** TransportSelector *)

(** C7: the classification is a function of the target string alone; a
    target is classified [socketio] exactly when its lower-cased form contains
    "socket.io" or starts with "http://" or "https://", and [websocket] in
    every other case; "ws://host/x" is [websocket], "https://host" is
    [socketio], and equal targets always get equal kinds. *)
Theorem detectConnectionType_rule :
  (forall url,
     _detectConnectionType url = socketio <->
       (exists a b, JsString.toLowerCase url = a ++ "socket.io" ++ b)
       \/ (exists rest, JsString.toLowerCase url = "http://" ++ rest)
       \/ (exists rest, JsString.toLowerCase url = "https://" ++ rest))
  /\ (forall url,
        _detectConnectionType url = websocket <->
          ~ ((exists a b, JsString.toLowerCase url = a ++ "socket.io" ++ b)
             \/ (exists rest, JsString.toLowerCase url = "http://" ++ rest)
             \/ (exists rest, JsString.toLowerCase url = "https://" ++ rest)))
  /\ _detectConnectionType "ws://host/x" = websocket
  /\ _detectConnectionType "https://host" = socketio
  /\ (forall url url', url = url' -> _detectConnectionType url = _detectConnectionType url').
Proof.
  assert (Hsio : forall url,
     _detectConnectionType url = socketio <->
       (exists a b, JsString.toLowerCase url = a ++ "socket.io" ++ b)
       \/ (exists rest, JsString.toLowerCase url = "http://" ++ rest)
       \/ (exists rest, JsString.toLowerCase url = "https://" ++ rest)).
  { intros url. unfold _detectConnectionType, JsString.startsWith.
    rewrite <- includes_iff, <- !prefix_iff.
    destruct (JsString.includes _ _), (String.prefix "http://" _),
      (String.prefix "https://" _); simpl; intuition congruence. }
  split; [exact Hsio|]. split.
  - intros url. rewrite <- Hsio.
    destruct (_detectConnectionType url); split; congruence.
  - repeat split; try reflexivity. intros url url' ->. reflexivity.
Qed.




Example detectConnectionType_upper_https : _detectConnectionType "HTTPS://host" = socketio.
Proof. reflexivity. Qed.

Example detectConnectionType_upper_socket_io :
  _detectConnectionType "ws://host/SOCKET.IO/" = socketio.
Proof. reflexivity. Qed.

(** ** Run equations of the building blocks *)

Lemma length_clear_timer h ts : length (clear_timer h ts) = length ts.
Proof.
  unfold clear_timer. destruct h as [id|]; [|reflexivity].
  destruct (ts !! id) as [t|]; [|reflexivity].
  case_decide; [apply length_insert | reflexivity].
Qed.

Lemma scheduleReconnect_run r w : scheduleReconnect r w = (Ok tt, scheduled r w).
Proof.
  unfold scheduleReconnect, scheduled, clearTimeout, setTimeout. unfold_m.
  simpl. rewrite length_clear_timer. reflexivity.
Qed.

Local Opaque scheduleReconnect.

Lemma send_socketio_run P id text w :
  send_socketio P id text w =
    (Ok tt, with_trace (fun t => (t ++ [Socket_emit id (fst (socketio_emission P text))
                                           (snd (socketio_emission P text))])%list) w).
Proof.
  unfold send_socketio, socketio_emission, Socket_emit_call, get_prop. unfold_m.
  destruct (JSON_parse P text) as [[| | | | |fields]|]; try reflexivity.
  destruct (obj_get fields "event") as [ev|]; try reflexivity.
  destruct (js_truthy ev) eqn:Htr; try reflexivity.
  destruct (reserved_event ev) eqn:Hres; simpl; try reflexivity.
  unfold opt_truthy. destruct (obj_get fields "data") as [d|]; reflexivity.
Qed.

Local Opaque send_socketio.

Lemma construction_kind P url k tg :
  construction P url = Constructed k tg -> kind_agrees k (_detectConnectionType url) = true.
Proof.
  unfold construction. destruct (_detectConnectionType url); intros H;
    repeat case_match; simplify_eq; reflexivity.
Qed.

(** [connect()] on a non-empty target: the flag and the kind are set, then
    the construction decides. *)
Lemma connect_run P r w :
  JsString.truthy (serverUrl (App_state w)) = true ->
  exists w0 logged,
    this w0 = set_connectionType (Some (_detectConnectionType (serverUrl (App_state w))))
                (set_manualClose false (this w))
    /\ App_state w0 = App_state w /\ timers w0 = timers w
    /\ transports w0 = transports w /\ trace w0 = (trace w ++ logged)%list
    /\ match construction P (serverUrl (App_state w)) with
       | Constructed k tg => connect P r w = (Ok tt, constructed k tg w0)
       | Threw message =>
           connect P r w = (Ok tt, scheduled r w0)
           /\ Log_ws ("Connection failed: " ++ message) lvl_error ∈ logged
       | NotLoaded =>
           connect P r w = (Ok tt, w0)
           /\ Log_ws "Socket.IO library not loaded" lvl_error ∈ logged
       end.
Proof.
  intros Hurl. unfold connect, construction. unfold_m. simpl. rewrite Hurl. simpl.
  set (url := serverUrl (App_state w)).
  set (w1 := with_this (set_connectionType (Some (_detectConnectionType url)))
               (with_this (set_manualClose false) w)).
  destruct (_detectConnectionType url) eqn:Hty; simpl.
  - unfold _connectWebSocket, new_WebSocket. unfold_m. simpl.
    destruct (WebSocket_throws P url) as [m|]; simpl; rewrite ?scheduleReconnect_run.
    + exists (with_trace
                (fun t => ((t ++ [Log_ws ("Connecting via WebSocket to " ++ url) lvl_info])
                           ++ [Log_ws ("Connection failed: " ++ m) lvl_error])%list) w1),
             [Log_ws ("Connecting via WebSocket to " ++ url) lvl_info;
              Log_ws ("Connection failed: " ++ m) lvl_error].
      subst w1. simpl. rewrite <- app_assoc. repeat split; try reflexivity.
      apply list_elem_of_In; simpl; auto.
    + exists (with_trace
                (fun t => (t ++ [Log_ws ("Connecting via WebSocket to " ++ url) lvl_info])%list)
                w1),
             [Log_ws ("Connecting via WebSocket to " ++ url) lvl_info].
      subst w1. simpl. repeat split; reflexivity.
  - unfold _connectSocketIO, new_URL, io. unfold_m. simpl.
    destruct (URL_parse P _) as [m|[proto host]]; simpl; rewrite ?scheduleReconnect_run.
    + exists (with_trace
                (fun t => (t ++ [Log_ws ("Connection failed: " ++ m) lvl_error])%list) w1),
             [Log_ws ("Connection failed: " ++ m) lvl_error].
      subst w1. simpl. repeat split; try reflexivity.
      apply list_elem_of_In; simpl; auto.
    + destruct (io_loaded P); simpl.
      * exists (with_trace
                  (fun t => (t ++ [Log_ws ("Connecting via Socket.IO to "
                                           ++ proto ++ "//" ++ host) lvl_info])%list) w1),
               [Log_ws ("Connecting via Socket.IO to " ++ proto ++ "//" ++ host) lvl_info].
        subst w1. simpl. repeat split; reflexivity.
      * exists (with_trace
                  (fun t => ((t ++ [Log_ws ("Connecting via Socket.IO to "
                                            ++ proto ++ "//" ++ host) lvl_info])
                             ++ [Log_ws "Socket.IO library not loaded" lvl_error])%list) w1),
               [Log_ws ("Connecting via Socket.IO to " ++ proto ++ "//" ++ host) lvl_info;
                Log_ws "Socket.IO library not loaded" lvl_error].
        subst w1. simpl. rewrite <- app_assoc. repeat split; try reflexivity.
        apply list_elem_of_In; simpl; auto.
Qed.

(** [connect()] on an empty target only warns. *)
Lemma connect_no_url P r w :
  JsString.truthy (serverUrl (App_state w)) = false ->
  connect P r w =
    (Ok tt, with_trace (fun t => (t ++ [Log_ws "No URL configured" lvl_warn])%list) w).
Proof. intros Hurl. unfold connect. unfold_m. simpl. rewrite Hurl. reflexivity. Qed.

Local Opaque connect.

Lemma js_le_refl_Fin q : js_le (Fin q) (Fin q).
Proof. simpl. apply Qle_refl. Qed.

(** A sum grows with its terms (the second term finite). *)
Lemma js_add_mono x x' b b' :
  js_le x x' -> (b <= b')%Q -> js_le (js_add x (Fin b)) (js_add x' (Fin b')).
Proof.
  intros Hx Hb. destruct x as [| |a|], x' as [| |a'|]; simpl in *; try tauto.
  - destruct (round64 (a' + b')) eqn:E; simpl; auto.
    pose proof (round64_mono (a' + b') (a' + b') (Qle_refl _)) as H. rewrite E in H. exact H.
  - apply round64_mono. lra.
  - destruct (round64 (a + b)) eqn:E; simpl; auto.
    pose proof (round64_mono (a + b) (a + b) (Qle_refl _)) as H. rewrite E in H. exact H.
Qed.

(** The jitter of a draw: a double from 0 up to, and not reaching, 250. *)
Lemma jitter_range r :
  unit_interval r -> is_double r = true ->
  exists jitter, jitter_of r = Fin jitter /\ (0 <= jitter /\ jitter < 250)%Q.
Proof.
  intros [H0 H1] Hd. pose proof (double_below_one r Hd H0 H1) as Hmax.
  unfold jitter_of, js_mul.
  assert (Hlo : js_le (round64 0) (round64 (r * 250))) by (apply round64_mono; lra).
  assert (Hhi : js_le (round64 (r * 250)) (round64 ((1 - pow2 (-53)) * 250)))
    by (apply round64_mono; lra).
  assert (E0 : round64 0 = Fin 0) by reflexivity.
  assert (E1 : round64 ((1 - pow2 (-53)) * 250) = Fin (8796093022207999 # 35184372088832))
    by (vm_compute; reflexivity).
  rewrite E0 in Hlo. rewrite E1 in Hhi.
  destruct (round64 (r * 250)) as [| |j|]; simpl in *; try tauto.
  exists j. split; [reflexivity|]. split; [exact Hlo|].
  assert ((8796093022207999 # 35184372088832) < 250)%Q by reflexivity. lra.
Qed.

(** The backoff is [min(8000, 300 n)], and no rounding is involved. *)
Lemma backoff_of_small n :
  n <= 26 -> backoff_of n = Fin (inject_Z (Z.of_nat n * 300)).
Proof.
  intros Hn.
  do 27 (destruct n as [|n]; [vm_compute; reflexivity|]). lia.
Qed.

Lemma backoff_of_large n : 27 <= n -> backoff_of n = Fin 8000.
Proof.
  intros Hn. unfold backoff_of, js_mul.
  assert (Hle : (8100 <= inject_Z (Z.of_nat n) * 300)%Q).
  { assert (H : (27 <= inject_Z (Z.of_nat n))%Q).
    { change 27%Q with (inject_Z 27). rewrite <- Zle_Qle. lia. }
    lra. }
  pose proof (round64_mono _ _ Hle) as Hm.
  assert (E : round64 8100 = Fin 8100) by (vm_compute; reflexivity).
  rewrite E in Hm.
  destruct (round64 (inject_Z (Z.of_nat n) * 300)) as [| |b|]; simpl in *; try tauto.
  assert (Hb : Qle_bool 8000 b = true) by (apply Qle_bool_iff; lra).
  rewrite Hb. reflexivity.
Qed.

Lemma backoff_of_value n :
  exists backoff, backoff_of n = Fin backoff
                  /\ (backoff == Qmin 8000 (inject_Z (Z.of_nat n) * 300))%Q.
Proof.
  destruct (le_lt_dec n 26) as [Hn|Hn].
  - exists (inject_Z (Z.of_nat n * 300)). split; [apply backoff_of_small, Hn|].
    rewrite Q.min_r.
    + rewrite inject_Z_mult. reflexivity.
    + assert (H : (inject_Z (Z.of_nat n) <= 26)%Q).
      { change 26%Q with (inject_Z 26). rewrite <- Zle_Qle. lia. }
      lra.
  - exists 8000%Q. split; [apply backoff_of_large; lia|].
    rewrite Q.min_l; [reflexivity|].
    assert (H : (27 <= inject_Z (Z.of_nat n))%Q).
    { change 27%Q with (inject_Z 27). rewrite <- Zle_Qle. lia. }
    lra.
Qed.

(** An enabled close event of an unintended close runs [scheduleReconnect]. *)
Lemma close_event_run P r w id t e :
  transports w !! id = Some t -> is_close_event t e = true ->
  reconnect_wanted w = true ->
  exists w0, deliver P r id e w = (Ok tt, scheduled r w0)
             /\ this w0 = this w /\ App_state w0 = App_state w /\ timers w0 = timers w
             /\ transports w0 = <[id := set_life CLOSED t]> (transports w).
Proof.
  intros Ht He Hw.
  unfold deliver, is_close_event, lookup_transport, update_life in *. unfold_m.
  simpl. rewrite Ht. cbn beta iota.
  destruct (tkind t), e; try discriminate; repeat case_decide;
    try (rewrite ?bool_decide_eq_true_2 in He by assumption; discriminate);
    try (rewrite ?bool_decide_eq_false_2 in He by assumption; discriminate).
  all: unfold on_ws_close, on_sio_disconnect; unfold_m; simpl;
    change (reconnect_wanted (with_trace ?f (with_trace ?g (with_transports ?h w))))
      with (reconnect_wanted w); rewrite Hw; rewrite scheduleReconnect_run;
    eexists; split; [reflexivity|]; simpl; rewrite ?Ht; auto.
Qed.

(** An enabled open event resets the attempt counter and nothing else of the
    reconnect state. *)
Lemma open_event_run P r w id t e :
  transports w !! id = Some t -> is_open_event t e = true ->
  _attempt (this (exec (deliver P r id e) w)) = 0
  /\ _manualClose (this (exec (deliver P r id e) w)) = _manualClose (this w)
  /\ _reconnectTimer (this (exec (deliver P r id e) w)) = _reconnectTimer (this w)
  /\ timers (exec (deliver P r id e) w) = timers w.
Proof.
  intros Ht He.
  unfold deliver, is_open_event, lookup_transport in *. unfold_m.
  simpl. rewrite Ht. cbn beta iota.
  destruct (tkind t), e; try discriminate; repeat case_decide;
    try (rewrite ?bool_decide_eq_false_2 in He by assumption; discriminate);
    repeat split; reflexivity.
Qed.

(** ** Reconnect policy *)

(** C2: on an unintended close (a close event while [_manualClose] is false
    and auto-reconnect is on) with [_attempt = n], the timer that is scheduled
    has the delay [base + jitter + backoff], the two sums being the doubles
    JavaScript computes.  [base] is the configured delay, and 1500 when that
    is [NaN] or 0; [jitter] is the double [Math.random() * 250], which lies in
    [0, 250); [backoff] is [min(8000, n * 300)].  [_attempt] becomes [n + 1];
    an open event resets it to 0; the backoff parts for [n = 0, 1, 2] are 0,
    300 and 600. *)
Theorem unintended_close_schedules_reconnect P r w id t e :
  unit_interval r -> is_double r = true ->
  transports w !! id = Some t -> is_close_event t e = true ->
  _manualClose (this w) = false -> autoReconnect (App_state w) = true ->
  exists base jitter backoff : Q,
    match reconnectDelay (App_state w) with
    | Some q => if Qeq_bool q 0 then base = 1500%Q else base = q
    | None => base = 1500%Q
    end /\
    js_mul (Fin r) (Fin 250) = Fin jitter /\ (0 <= jitter /\ jitter < 250)%Q /\
    (backoff == Qmin 8000 (inject_Z (Z.of_nat (_attempt (this w))) * 300))%Q /\
    _reconnectTimer (this (exec (deliver P r id e) w)) = Some (length (timers w)) /\
    timers (exec (deliver P r id e) w) !! length (timers w) =
      Some {| delay := js_add (js_add (Fin base) (Fin jitter)) (Fin backoff);
              status := Pending |} /\
    _attempt (this (exec (deliver P r id e) w)) = S (_attempt (this w)) /\
    (forall r' w' id' t' e',
        transports w' !! id' = Some t' -> is_open_event t' e' = true ->
        _attempt (this (exec (deliver P r' id' e') w')) = 0) /\
    backoff_of 0 = Fin 0 /\ backoff_of 1 = Fin 300 /\ backoff_of 2 = Fin 600.
Proof.
  intros Hr Hd Ht He Hm Ha.
  destruct (jitter_range r Hr Hd) as (jitter & Hj & Hjr).
  destruct (backoff_of_value (_attempt (this w))) as (backoff & Hb & Hbv).
  exists (Number_or_1500 (reconnectDelay (App_state w))), jitter, backoff.
  split; [unfold Number_or_1500; repeat case_match; reflexivity|].
  split; [exact Hj|]. split; [exact Hjr|]. split; [exact Hbv|].
  destruct (close_event_run P r w id t e Ht He) as (w0 & Hrun & Hthis & Happ & Htim & _).
  { unfold reconnect_wanted. rewrite Hm, Ha. reflexivity. }
  unfold exec. rewrite Hrun. unfold scheduled; simpl. rewrite Hthis, Happ, Htim, Hb.
  fold (jitter_of r). rewrite Hj.
  repeat split.
  - rewrite lookup_app_r by (rewrite length_clear_timer; lia).
    rewrite length_clear_timer, Nat.sub_diag. reflexivity.
  - intros r' w' id' t' e' Ht' He'. apply (open_event_run P r' w' id' t' e' Ht' He').
Qed.

Lemma unintended_close_schedules_reconnect_witness :
  unit_interval (1 # 2) /\ is_double (1 # 2) = true
  /\ is_close_event {| tkind := WebSocketObj; target := "ws://host/x"; life := OPEN |}
       (ev_ws_close 1006 EmptyString) = true
  /\ timers Sample.ws_dropped !! 0 = Some {| delay := Fin 1625; status := Pending |}
  /\ _attempt (this Sample.ws_dropped) = 1.
Proof.
  assert (Hr : unit_interval (1 # 2)) by (split; [discriminate | reflexivity]).
  split; [exact Hr|]. split; [reflexivity|]. split; [reflexivity|].
  destruct (unintended_close_schedules_reconnect Sample.browser (1 # 2) Sample.ws_opened 0
              {| tkind := WebSocketObj; target := "ws://host/x"; life := OPEN |}
              (ev_ws_close 1006 EmptyString) Hr eq_refl eq_refl eq_refl eq_refl eq_refl)
    as (base & jitter & backoff & _ & _ & _ & _ & _ & _ & Ha & _).
  split; [vm_compute; reflexivity | exact Ha].
Defined.

(** Three unintended closes in a row, each followed by the reconnect the
    timer starts: with a jitter of 0 the timers are set to 1500, 1800 and
    2100 ms. *)
Example three_unintended_closes :
  map delay
    (timers
       (run Sample.browser Sample.ws_opened
          [(transport_event 0 (ev_ws_close 1006 EmptyString), 0%Q);
           (timer_fires 0, 0%Q);
           (transport_event 1 (ev_ws_close 1006 EmptyString), 0%Q);
           (timer_fires 1, 0%Q);
           (transport_event 2 (ev_ws_close 1006 EmptyString), 0%Q)]))
  = [Fin 1500; Fin 1800; Fin 2100].
Proof. vm_compute. reflexivity. Qed.

(** The sums are rounded as JavaScript rounds them: the largest draw below
    1 gives a jitter just under 250, and with the base 1500 and the full
    backoff the delay is 9750, the double nearest to the exact sum; and
    [250.49999999999997 + 0 + 300] is [550.5]. *)
Example delay_is_rounded :
  jitter_of (1 - pow2 (-53)) = Fin (250 - pow2 (-45))
  /\ js_add (js_add (Fin 1500) (jitter_of (1 - pow2 (-53)))) (Fin 8000) = Fin 9750
  /\ is_double (8813685208252415 # 35184372088832) = true
  /\ Number_toString (Fin (8813685208252415 # 35184372088832)) = "250.49999999999997"
  /\ js_add (js_add (Fin (8813685208252415 # 35184372088832)) (Fin 0)) (Fin 300)
     = Fin (1101 # 2).
Proof. repeat split; vm_compute; reflexivity. Qed.

(** C3, as stated, fails: after the server dropped the connection (one
    attempt counted, one reconnect timer pending) an explicit [connect()]
    with a non-empty target leaves the counter at 1 and the timer pending. *)
Lemma connect_resets_reconnect_state_counterexample :
  JsString.truthy (serverUrl (App_state Sample.ws_dropped)) = true
  /\ _attempt (this (exec (connect Sample.browser 0) Sample.ws_dropped)) = 1
  /\ length (pending_timers (exec (connect Sample.browser 0) Sample.ws_dropped)) = 1
  /\ ~ reconnect_state_reset (exec (connect Sample.browser 0) Sample.ws_dropped).
Proof.
  split; [reflexivity|]. split; [vm_compute; reflexivity|].
  split; [vm_compute; reflexivity|].
  intros (H & _ & _). vm_compute in H. discriminate H.
Qed.

(** C3, amended: every [connect()] call with a non-empty target resets
    [_manualClose] to false; it does not reset the attempt counter and does
    not cancel a pending timer: unless the construction throws, [_attempt],
    [_reconnectTimer] and the timers are as before, and when it throws a
    further reconnect is scheduled and counted.  Every open event resets
    [_attempt] to 0 and leaves [_manualClose] and the timers as they are. *)
Theorem connect_resets_manualClose_only P r w :
  JsString.truthy (serverUrl (App_state w)) = true ->
  _manualClose (this (exec (connect P r) w)) = false
  /\ match construction P (serverUrl (App_state w)) with
     | Threw _ =>
         _attempt (this (exec (connect P r) w)) = S (_attempt (this w))
         /\ _reconnectTimer (this (exec (connect P r) w)) = Some (length (timers w))
     | _ =>
         _attempt (this (exec (connect P r) w)) = _attempt (this w)
         /\ _reconnectTimer (this (exec (connect P r) w)) = _reconnectTimer (this w)
         /\ timers (exec (connect P r) w) = timers w
     end
  /\ (forall r' w' id t e,
        transports w' !! id = Some t -> is_open_event t e = true ->
        _attempt (this (exec (deliver P r' id e) w')) = 0
        /\ _manualClose (this (exec (deliver P r' id e) w')) = _manualClose (this w')
        /\ _reconnectTimer (this (exec (deliver P r' id e) w')) = _reconnectTimer (this w')
        /\ timers (exec (deliver P r' id e) w') = timers w').
Proof.
  intros Hurl.
  destruct (connect_run P r w Hurl) as (w0 & logged & Hthis & Happ & Htim & Htr & _ & Hc).
  split; [|split; [|exact (open_event_run P)]].
  - unfold exec. destruct (construction P _); [|destruct Hc as [Hc _]..];
      rewrite Hc; simpl; rewrite Hthis; reflexivity.
  - unfold exec. destruct (construction P _); [|destruct Hc as [Hc _]..];
      rewrite Hc; simpl; rewrite ?Hthis, ?Htim; auto.
Qed.

Lemma connect_resets_manualClose_only_witness :
  JsString.truthy (serverUrl (App_state Sample.ws_dropped)) = true
  /\ _manualClose (this (exec (connect Sample.browser 0) Sample.ws_dropped)) = false
  /\ _attempt (this (exec (connect Sample.browser 0) Sample.ws_dropped))
     = _attempt (this Sample.ws_dropped).
Proof.
  split; [reflexivity|].
  destruct (connect_resets_manualClose_only Sample.browser 0 Sample.ws_dropped eq_refl)
    as (Hm & Hc & _).
  split; [exact Hm|]. exact (proj1 Hc).
Defined.

(** ** Construction failures *)

(** [connect()] never throws to its caller. *)
Lemma connect_never_throws P r w : result (connect P r) w = Some tt.
Proof.
  destruct (JsString.truthy (serverUrl (App_state w))) eqn:Hurl.
  - destruct (connect_run P r w Hurl) as (w0 & logged & _ & _ & _ & _ & _ & Hc).
    unfold result. destruct (construction P _); [|destruct Hc as [Hc _]..];
      rewrite Hc; reflexivity.
  - unfold result. rewrite (connect_no_url P r w Hurl). reflexivity.
Qed.

(** A construction that throws is logged as an error and always schedules a
    reconnect: the catch block does not look at [App.state.autoReconnect]. *)
Lemma construction_failure_always_schedules P r w message :
  JsString.truthy (serverUrl (App_state w)) = true ->
  construction P (serverUrl (App_state w)) = Threw message ->
  Log_ws ("Connection failed: " ++ message) lvl_error ∈ emitted (connect P r) w
  /\ exists d, timers (exec (connect P r) w) !! length (timers w)
               = Some {| delay := d; status := Pending |}.
Proof.
  intros Hurl Hthrew.
  destruct (connect_run P r w Hurl) as (w0 & logged & Hthis & Happ & Htim & Htr & Hlog & Hc).
  rewrite Hthrew in Hc. destruct Hc as [Hc Hin].
  unfold emitted, exec. rewrite Hc. simpl. split.
  - rewrite Hlog, <- app_assoc, drop_app_length. apply elem_of_app. left. exact Hin.
  - eexists. rewrite Htim.
    rewrite lookup_app_r by (rewrite length_clear_timer; lia).
    rewrite length_clear_timer, Nat.sub_diag. reflexivity.
Qed.

(** C4, the code at a failing input: the target ws://host:99999 makes the
    WebSocket constructor throw and auto-reconnect is off.  [connect()]
    returns normally, but one reconnect timer is pending afterwards, whereas
    an unintended close under the same settings schedules none. *)
Theorem construction_failure_ignores_autoReconnect :
  construction Sample.browser "ws://host:99999" = Threw "The URL is invalid."
  /\ autoReconnect (App_state (initial (Sample.settings "ws://host:99999" false))) = false
  /\ result (connect Sample.browser (1 # 2))
       (initial (Sample.settings "ws://host:99999" false)) = Some tt
  /\ length (pending_timers
               (exec (connect Sample.browser (1 # 2))
                  (initial (Sample.settings "ws://host:99999" false)))) = 1
  /\ pending_timers
       (exec (deliver Sample.browser (1 # 2) 0 (ev_ws_close 1006 EmptyString))
          Sample.ws_opened_no_auto) = [].
Proof. repeat split; vm_compute; reflexivity. Qed.

(** ** Messages of a WebSocket *)

Lemma String_or_empty_text s : String_or_empty (WsText s) = s.
Proof. destruct s; reflexivity. Qed.

(** C8: a [message] event of a WebSocket with a text payload is handed to
    [onMessage] (and to the receive log) with exactly that text, and nothing
    else about a WebSocket reaches [onMessage]: every notification comes from
    a [message] event and carries [String(ev.data || ...)] of its payload. *)
Theorem ws_message_verbatim P r w id t text :
  transports w !! id = Some t -> tkind t = WebSocketObj -> life t = OPEN ->
  emitted (deliver P r id (ev_ws_message (WsText text))) w = [Log_rx text; onMessage text]
  /\ (forall r' e text',
        onMessage text' ∈ emitted (deliver P r' id e) w ->
        exists data, e = ev_ws_message data /\ text' = String_or_empty data
                     /\ (forall s, data = WsText s -> text' = s)).
Proof.
  intros Ht Hk Hl. split.
  - unfold deliver, lookup_transport, on_ws_message. unfold_m. simpl.
    rewrite Ht, Hk. cbn beta iota. rewrite decide_True by exact Hl. simpl.
    rewrite <- app_assoc, drop_app_length. destruct text; reflexivity.
  - intros r' e text'.
    unfold deliver, lookup_transport, update_life, on_ws_open, on_ws_message, on_ws_error,
      on_ws_close. unfold_m. simpl.
    rewrite Ht, Hk. cbn beta iota. rewrite Hl.
    destruct e; simpl; rewrite ?drop_all;
      try (intros Hin; apply elem_of_nil in Hin; contradiction).
    + rewrite <- app_assoc, drop_app_length; simpl.
      rewrite !elem_of_cons, elem_of_nil.
      intros [Hin|[Hin|[]]]; [discriminate|]. injection Hin as ->.
      exists data. repeat split. intros s ->. apply String_or_empty_text.
    + rewrite <- app_assoc, drop_app_length; simpl.
      rewrite !elem_of_cons, elem_of_nil.
      intros [Hin|[Hin|[]]]; discriminate.
    + match goal with |- context [reconnect_wanted ?x] => destruct (reconnect_wanted x) end;
        rewrite ?scheduleReconnect_run; simpl;
        rewrite <- ?app_assoc, drop_app_length; simpl;
        rewrite !elem_of_cons, elem_of_nil; intuition discriminate.
Qed.

Lemma ws_message_verbatim_witness :
  transports Sample.ws_opened !! 0
  = Some {| tkind := WebSocketObj; target := "ws://host/x"; life := OPEN |}
  /\ emitted (deliver Sample.browser 0 0 (ev_ws_message (WsText "log:hello world")))
       Sample.ws_opened
     = [Log_rx "log:hello world"; onMessage "log:hello world"].
Proof.
  split; [reflexivity|].
  exact (proj1 (ws_message_verbatim Sample.browser 0 Sample.ws_opened 0
                  {| tkind := WebSocketObj; target := "ws://host/x"; life := OPEN |}
                  "log:hello world" eq_refl eq_refl eq_refl)).
Defined.

(** ** send and isOpen *)

Lemma isOpen_open_for_kind w : isOpen w = Some true <-> open_for_kind w = true.
Proof.
  unfold isOpen, open_for_kind, connected, readyState, kind_agrees.
  destruct (connection (this w)) as [id|]; [|split; discriminate].
  destruct (connectionType (this w)) as [[]|]; simpl;
    destruct (transports w !! id) as [[[] tg l]|]; simpl;
    try (split; discriminate).
  - split; intros H.
    + injection H as H. apply bool_decide_eq_true in H. apply bool_decide_eq_true. congruence.
    + apply bool_decide_eq_true in H. f_equal. apply bool_decide_eq_true. congruence.
  - split; intros H; [injection H as H|f_equal]; exact H.
Qed.

(** C9: [send(text)] returns true exactly when [isOpen()] returns true in
    the same state, for both kinds of transport; and [isOpen()] returns true
    exactly when a transport of the recorded kind exists and is open. *)
Theorem send_true_iff_isOpen P w text :
  (result (send P text) w = Some true <-> isOpen w = Some true)
  /\ (isOpen w = Some true <-> open_for_kind w = true).
Proof.
  split; [|apply isOpen_open_for_kind].
  unfold send, isOpen, lookup_transport, WebSocket_send_call. unfold_m.
  destruct (connection (this w)) as [id|]; [|simpl; split; discriminate].
  cbn beta iota. repeat case_decide; cbn beta iota;
    rewrite ?send_socketio_run; simpl; try tauto;
    split; (discriminate || congruence).
Qed.

(** ** Effects of the steps on the client *)


Lemma deliver_effect P r id e w :
  handler_effect r w (exec (deliver P r id e) w)
  /\ App_state (exec (deliver P r id e) w) = App_state w
  /\ length (transports (exec (deliver P r id e) w)) = length (transports w).
Proof.
  unfold deliver, lookup_transport, update_life, on_ws_open, on_ws_message, on_ws_error,
    on_ws_close, on_sio_connect, on_sio_message, on_sio_any, on_sio_error,
    on_sio_disconnect, on_sio_connect_error.
  unfold_m. simpl.
  destruct (transports w !! id) as [t|] eqn:Ht; simpl;
    [|repeat split; apply he_quiet; auto].
  destruct (tkind t), e; simpl; repeat case_decide; simpl; rewrite ?Ht;
    try (repeat split; rewrite ?length_insert; try reflexivity; apply he_quiet; simpl; auto; fail).
  all: try match goal with
       | |- context [reconnect_wanted ?x] =>
           change (reconnect_wanted x) with (reconnect_wanted w);
           destruct (reconnect_wanted w) eqn:Hw
       end; rewrite ?scheduleReconnect_run; simpl; rewrite ?Ht;
    repeat split; rewrite ?length_insert; try reflexivity;
    try (apply he_quiet; simpl; auto; fail);
    try (eapply he_scheduled; [reflexivity|..]; simpl; rewrite ?Ht, ?length_insert; auto; fail).
  all: match goal with |- context [match ?a with [] => _ | _ => _ end] => destruct a as [|[] []] end;
    simpl; repeat split; try reflexivity; apply he_quiet; simpl; auto.
Qed.

(** What [disconnect()] does to the reconnect state, whether it returns or
    throws. *)
Lemma disconnect_effect r w :
  _manualClose (this (exec (disconnect r) w)) = true
  /\ timers (exec (disconnect r) w) = clear_timer (_reconnectTimer (this w)) (timers w)
  /\ App_state (exec (disconnect r) w) = App_state w
  /\ _attempt (this (exec (disconnect r) w)) = _attempt (this w)
  /\ _reconnectTimer (this (exec (disconnect r) w)) = _reconnectTimer (this w)
  /\ connectionType (this (exec (disconnect r) w)) = connectionType (this w)
  /\ length (transports (exec (disconnect r) w)) = length (transports w)
  /\ (connection (this (exec (disconnect r) w)) = None
      \/ connection (this (exec (disconnect r) w)) = connection (this w)).
Proof.
  unfold disconnect, Socket_disconnect_call, WebSocket_close_call, on_sio_disconnect,
    lookup_transport, update_life, clearTimeout, reconnect_wanted.
  unfold_m. simpl.
  destruct (connection (this w)) as [id|] eqn:Hc; simpl; [|repeat split; auto].
  destruct (connectionType (this w)) as [[]|] eqn:Hty; simpl;
    destruct (transports w !! id) as [[[] tg []]|] eqn:Ht; simpl; rewrite ?Ht; simpl;
    repeat split; rewrite ?Ht, ?length_insert; auto.
Qed.

(** A transport that is still live after [disconnect()] was live before and
    was not the referenced transport of the recorded kind. *)
Lemma disconnect_survivors r w i t' :
  transports (exec (disconnect r) w) !! i = Some t' -> live t' = true ->
  exists t, transports w !! i = Some t /\ live t = true
            /\ ~ (connection (this w) = Some i
                  /\ exists ty, connectionType (this w) = Some ty
                                /\ kind_agrees (tkind t) ty = true).
Proof.
  unfold disconnect, Socket_disconnect_call, WebSocket_close_call, on_sio_disconnect,
    lookup_transport, update_life, clearTimeout, reconnect_wanted.
  unfold_m. simpl.
  destruct (connection (this w)) as [id|]; simpl.
  2:{ intros Ht Hl. exists t'. repeat split; auto. intros [? _]; discriminate. }
  destruct (connectionType (this w)) as [[]|]; simpl;
    destruct (transports w !! id) as [[[] tg []]|] eqn:Ht; simpl; rewrite ?Ht; simpl;
    rewrite ?Ht; intros Hi Hl;
    try (destruct (decide (i = id)) as [->|Hne];
         [ rewrite list_lookup_insert_eq in Hi by (eapply lookup_lt_Some; eauto);
           injection Hi as <-; discriminate Hl
         | rewrite list_lookup_insert_ne in Hi by auto ]);
    exists t'; (split; [exact Hi|]); (split; [exact Hl|]);
    intros [Hc (ty & Hty & Hk)]; simplify_eq; try discriminate.
  all: try (rewrite Ht in Hi; simplify_eq; discriminate).
Qed.

Lemma send_frame P text w :
  this (exec (send P text) w) = this w
  /\ timers (exec (send P text) w) = timers w
  /\ transports (exec (send P text) w) = transports w
  /\ App_state (exec (send P text) w) = App_state w.
Proof.
  unfold send, lookup_transport, WebSocket_send_call. unfold_m.
  destruct (connection (this w)) as [id|]; [|simpl; auto].
  cbn beta iota. repeat case_decide; cbn beta iota;
    rewrite ?send_socketio_run; simpl; auto.
Qed.

Lemma fire_timer_run P r id w :
  (exists t, timers w !! id = Some t /\ status t = Pending
             /\ fire_timer P r id w
                = connect P r (with_timers
                                 (fun ts => <[id := {| delay := delay t; status := Fired |}]> ts) w))
  \/ ((forall t, timers w !! id = Some t -> status t <> Pending)
      /\ fire_timer P r id w = (Ok tt, w)).
Proof.
  unfold fire_timer. unfold_m. simpl.
  destruct (timers w !! id) as [t|] eqn:Ht.
  - case_decide.
    + left. exists t. auto.
    + right. split; [|reflexivity]. intros t' Heq. congruence.
  - right. split; [|reflexivity]. discriminate.
Qed.





(** A reserved name inside an array is refused by [socket.emit] as the
    name itself is: [{"event":["connect"]}] goes out as a [message] with the
    text. *)
Example send_reserved_name_in_array :
  reserved_event (JArr [JStr "connect"]) = true
  /\ reserved_event (JArr [JStr "chat"]) = false
  /\ reserved_event (JArr [JStr "connect"; JNull]) = false
  /\ reserved_event (JNum 1) = false
  /\ emitted (send Sample.browser Sample.reserved_text) Sample.sio_opened
     = [Socket_emit 0 (JStr "message") (JStr Sample.reserved_text);
        Log_tx Sample.reserved_text].
Proof. repeat split; vm_compute; reflexivity. Qed.



(** ** Timers *)

Lemma clear_timer_pending h ts i t :
  clear_timer h ts !! i = Some t -> status t = Pending ->
  ts !! i = Some t /\ h <> Some i.
Proof.
  unfold clear_timer. destruct h as [id|]; [|intros; split; [assumption|discriminate]].
  destruct (ts !! id) as [t0|] eqn:Ht0.
  - case_decide.
    + intros Hi Hp. destruct (decide (id = i)) as [->|Hne].
      * rewrite list_lookup_insert_eq in Hi by (eapply lookup_lt_Some; eauto).
        injection Hi as <-. discriminate Hp.
      * rewrite list_lookup_insert_ne in Hi by exact Hne. split; [exact Hi|congruence].
    + intros Hi Hp. split; [exact Hi|]. intros Heq. injection Heq as ->. congruence.
  - intros Hi Hp. split; [exact Hi|]. intros Heq. injection Heq as ->. congruence.
Qed.

Lemma scheduled_timer_tracked r w0 : timer_tracked w0 -> timer_tracked (scheduled r w0).
Proof.
  intros Hw i t. unfold scheduled; simpl. intros Hi Hp.
  destruct (decide (i < length (timers w0))) as [Hlt|Hge].
  - rewrite lookup_app_l in Hi by (rewrite length_clear_timer; exact Hlt).
    destruct (clear_timer_pending _ _ _ _ Hi Hp) as [Hi' Hne].
    exfalso. apply Hne. apply (Hw i t Hi' Hp).
  - apply lookup_lt_Some in Hi. rewrite length_app, length_clear_timer in Hi. simpl in Hi.
    f_equal. lia.
Qed.

Lemma timer_tracked_same w w' :
  timers w' = timers w -> _reconnectTimer (this w') = _reconnectTimer (this w) ->
  timer_tracked w -> timer_tracked w'.
Proof. unfold timer_tracked. intros -> ->. auto. Qed.

Lemma connect_timer_tracked P r w : timer_tracked w -> timer_tracked (exec (connect P r) w).
Proof.
  intros Hw. destruct (JsString.truthy (serverUrl (App_state w))) eqn:Hurl.
  - destruct (connect_run P r w Hurl) as (w0 & logged & Hthis & _ & Htim & _ & _ & Hc).
    assert (Hw0 : timer_tracked w0)
      by (apply (timer_tracked_same w); [exact Htim | rewrite Hthis; reflexivity | exact Hw]).
    unfold exec. destruct (construction P _); [|destruct Hc as [Hc _]..]; rewrite Hc; simpl.
    + apply (timer_tracked_same w0); auto.
    + apply scheduled_timer_tracked, Hw0.
    + exact Hw0.
  - unfold exec. rewrite (connect_no_url P r w Hurl). exact Hw.
Qed.

Lemma step_timer_tracked P r i w : timer_tracked w -> timer_tracked (exec (step P r i) w).
Proof.
  intros Hw. destruct i as [| |text|id|id e|s]; simpl.
  - apply connect_timer_tracked, Hw.
  - destruct (disconnect_effect r w) as (_ & Htim & _ & _ & Hrt & _).
    intros i t Hi Hp. rewrite Htim in Hi.
    destruct (clear_timer_pending _ _ _ _ Hi Hp) as [Hi' Hne].
    exfalso. apply Hne, (Hw i t Hi' Hp).
  - destruct (send_frame P text w) as (Hthis & Htim & _).
    unfold exec in *. unfold_m.
    destruct (send P text w) as [[] w']; simpl in *;
      apply (timer_tracked_same w); congruence || exact Hw.
  - destruct (fire_timer_run P r id w) as [(t & Ht & Hp & Hrun) | [_ Hrun]];
      unfold exec; rewrite Hrun; [|exact Hw].
    apply connect_timer_tracked. intros i t' Hi Hp'. simpl in *.
    destruct (decide (id = i)) as [->|Hne].
    + rewrite list_lookup_insert_eq in Hi by (eapply lookup_lt_Some; eauto).
      injection Hi as <-. discriminate Hp'.
    + rewrite list_lookup_insert_ne in Hi by exact Hne. apply (Hw i t' Hi Hp').
  - destruct (deliver_effect P r id e w) as ([[Hthis|Hthis] Htim | w0 Hs Hthis Htim _ _ _] & _).
    + apply (timer_tracked_same w); congruence || exact Hw.
    + apply (timer_tracked_same w); [exact Htim | rewrite Hthis; reflexivity | exact Hw].
    + rewrite Hs. apply scheduled_timer_tracked.
      apply (timer_tracked_same w); congruence || exact Hw.
  - exact Hw.
Qed.

Lemma reachable_timer_tracked P s w : reachable P s w -> timer_tracked w.
Proof.
  induction 1 as [|w r i _ IH]; [intros i t Hi; discriminate Hi|].
  apply step_timer_tracked, IH.
Qed.

(** After [disconnect()] the client is quiescent. *)
Lemma disconnect_quiescent r w : timer_tracked w -> quiescent (exec (disconnect r) w).
Proof.
  intros Hw. destruct (disconnect_effect r w) as (Hm & Htim & _).
  split; [exact Hm|]. intros i t Hi Hp. rewrite Htim in Hi.
  destruct (clear_timer_pending _ _ _ _ Hi Hp) as [Hi' Hne]. apply Hne, (Hw i t Hi' Hp).
Qed.

(** Without a [connect()] call a quiescent client stays quiescent and gets
    no new transport. *)
Lemma step_quiescent P r i w :
  i <> call_connect -> quiescent w ->
  quiescent (exec (step P r i) w)
  /\ length (transports (exec (step P r i) w)) = length (transports w).
Proof.
  intros Hi [Hm Hp]. destruct i as [| |text|id|id e|s]; simpl; [contradiction| | | | |].
  - destruct (disconnect_effect r w) as (Hm' & Htim & _ & _ & _ & _ & Hlen & _).
    split; [split; [exact Hm'|]|exact Hlen].
    intros i t Hl Hpend. rewrite Htim in Hl.
    destruct (clear_timer_pending _ _ _ _ Hl Hpend) as [Hl' _]. apply (Hp i t Hl' Hpend).
  - destruct (send_frame P text w) as (Hthis & Htim & Htr & _).
    unfold exec in *. unfold_m.
    destruct (send P text w) as [[] w']; simpl in *; unfold quiescent;
      rewrite Hthis, Htim, Htr; auto.
  - destruct (fire_timer_run P r id w) as [(t & Ht & Hpend & _) | [_ Hrun]].
    + exfalso. apply (Hp id t Ht Hpend).
    + unfold exec. rewrite Hrun. simpl. split; [split|]; auto.
  - destruct (deliver_effect P r id e w) as ([[Hthis|Hthis] Htim | w0 _ _ _ _ Hw _] & _ & Hlen).
    + split; [|exact Hlen]. unfold quiescent. rewrite Hthis, Htim. auto.
    + split; [|exact Hlen]. unfold quiescent. rewrite Hthis, Htim. auto.
    + unfold reconnect_wanted in Hw. rewrite Hm in Hw. discriminate Hw.
  - split; [split|]; auto.
Qed.

(** After [disconnect()], whether it returned or threw, no reconnect fires
    and no transport is created until [connect()] is called explicitly:
    through any later sends, events, timer turns and changes of the settings
    the client stays quiescent. *)
Lemma disconnect_quiesces P s w r turns :
  reachable P s w -> no_connect_call turns ->
  quiescent (run P (exec (disconnect r) w) turns)
  /\ length (transports (run P (exec (disconnect r) w) turns)) = length (transports w).
Proof.
  intros Hreach Hturns.
  assert (Hq : quiescent (exec (disconnect r) w))
    by (apply disconnect_quiescent, (reachable_timer_tracked P s), Hreach).
  assert (Hlen : length (transports (exec (disconnect r) w)) = length (transports w))
    by (destruct (disconnect_effect r w) as (_ & _ & _ & _ & _ & _ & Hlen & _); exact Hlen).
  revert Hq Hlen. generalize (exec (disconnect r) w) as w1.
  induction Hturns as [|[i r'] turns Hi _ IH]; intros w1 Hq Hlen; simpl; [auto|].
  destruct (step_quiescent P r' i w1 Hi Hq) as [Hq' Hlen'].
  apply IH; [exact Hq' | congruence].
Qed.

(** ** disconnect *)

(** [disconnect()] with no transport: the flag is set, nothing is emitted. *)
Lemma disconnect_idle r w :
  connection (this w) = None ->
  result (disconnect r) w = Some tt
  /\ emitted (disconnect r) w = []
  /\ transports (exec (disconnect r) w) = transports w
  /\ this (exec (disconnect r) w) = set_manualClose true (this w).
Proof.
  intros Hc. unfold disconnect, clearTimeout. unfold_m. simpl. rewrite Hc. simpl.
  rewrite drop_all. repeat split. destruct (this w); simpl in *. subst. reflexivity.
Qed.

(** X7: [disconnect()] with a referenced transport of the recorded kind: the
    call returns, the reference is cleared, and a live transport is told to
    close ([close(1000, "client-close")] on a WebSocket, [disconnect()] on a
    socket) and is live no more. *)
Lemma disconnect_closes_referenced r w id t ty :
  connection (this w) = Some id -> transports w !! id = Some t ->
  connectionType (this w) = Some ty -> kind_agrees (tkind t) ty = true ->
  result (disconnect r) w = Some tt
  /\ connection (this (exec (disconnect r) w)) = None
  /\ (live t = true ->
      match ty with
      | websocket => WebSocket_close id 1000 "client-close"
      | socketio => Socket_disconnect id
      end ∈ emitted (disconnect r) w
      /\ exists t', transports (exec (disconnect r) w) !! id = Some t' /\ live t' = false).
Proof.
  intros Hc Ht Hty Hk.
  unfold disconnect, Socket_disconnect_call, WebSocket_close_call, on_sio_disconnect,
    lookup_transport, update_life, clearTimeout, reconnect_wanted.
  unfold_m. simpl. rewrite Hc. simpl. rewrite Hty.
  assert (Hlt : id < length (transports w)) by (eapply lookup_lt_Some; eauto).
  destruct ty, t as [[] tg []]; try discriminate Hk; simpl; rewrite ?Ht; simpl; rewrite ?Ht;
    simpl; (split; [reflexivity|]); (split; [reflexivity|]);
    intros Hl; try discriminate Hl;
    rewrite <- ?app_assoc, ?drop_app_length; simpl;
    (split; [apply elem_of_cons; left; reflexivity|]);
    rewrite ?Ht; rewrite list_lookup_insert_eq by exact Hlt; eexists; split; reflexivity.
Qed.

(** C6, the code at a failing input: a WebSocket is open, the target is
    changed to https://host:99999 and [connect()] fails to construct a
    socket, which leaves [connectionType] at [socketio] and the WebSocket in
    [connection].  [disconnect()] then throws (a WebSocket has no
    [disconnect] method): the flag is set and the timer is cancelled, but
    the reference is not cleared, nothing is told to close and the WebSocket
    stays open. *)
Theorem disconnect_throws_on_mismatched_kind :
  result (disconnect 0) Sample.switched_target = None
  /\ _manualClose (this (exec (disconnect 0) Sample.switched_target)) = true
  /\ pending_timers (exec (disconnect 0) Sample.switched_target) = []
  /\ connection (this (exec (disconnect 0) Sample.switched_target)) = Some 0
  /\ transports (exec (disconnect 0) Sample.switched_target) !! 0
     = Some {| tkind := WebSocketObj; target := "ws://host/x"; life := OPEN |}
  /\ emitted (disconnect 0) Sample.switched_target = [].
Proof. repeat split; vm_compute; reflexivity. Qed.

(** The reconnect action of the page, [disconnect()] directly followed by
    [connect()], with the events of the host in between: the close event of
    the first WebSocket arrives after [connect()] reset [_manualClose], is
    taken for an unintended close and schedules a reconnect, and when the
    timer fires a second live WebSocket is created. *)
Example reconnect_race :
  length (live_transports
            (run Sample.browser Sample.ws_opened
               [(call_disconnect, 0%Q); (call_connect, 0%Q);
                (transport_event 0 (ev_ws_close 1000 "client-close"), 0%Q);
                (timer_fires 0, 0%Q)])) = 2.
Proof. vm_compute. reflexivity. Qed.

(** ** The single live transport *)

Lemma none_live_referenced w : none_live w -> live_is_referenced w.
Proof. intros Hn i t Hi Hl. rewrite (Hn i t Hi) in Hl. discriminate Hl. Qed.

Lemma live_is_referenced_at_most_one w : live_is_referenced w -> at_most_one_live w.
Proof.
  intros Hw i j ti tj Hi Hj Hli Hlj.
  destruct (Hw i ti Hi Hli) as [Hci _]. destruct (Hw j tj Hj Hlj) as [Hcj _]. congruence.
Qed.

Lemma connect_live_is_referenced P r w :
  none_live w -> live_is_referenced (exec (connect P r) w).
Proof.
  intros Hn. destruct (JsString.truthy (serverUrl (App_state w))) eqn:Hurl.
  - destruct (connect_run P r w Hurl) as (w0 & logged & Hthis & _ & _ & Htr & _ & Hc).
    unfold exec. destruct (construction P _) as [k tg| |] eqn:Hk;
      [|destruct Hc as [Hc _]..]; rewrite Hc; simpl.
    + intros i t. unfold constructed; simpl. rewrite Htr, Hthis. simpl. intros Hi Hl.
      destruct (decide (i < length (transports w))) as [Hlt|Hge].
      * rewrite lookup_app_l in Hi by exact Hlt. rewrite (Hn i t Hi) in Hl. discriminate Hl.
      * assert (i = length (transports w)) as ->.
        { apply lookup_lt_Some in Hi. rewrite length_app in Hi. simpl in Hi. lia. }
        rewrite list_lookup_middle in Hi by reflexivity. injection Hi as <-. simpl.
        split; [reflexivity|]. eexists. split; [reflexivity|].
        apply (construction_kind P _ _ _ Hk).
    + apply none_live_referenced. intros i t. simpl. rewrite Htr. apply Hn.
    + apply none_live_referenced. intros i t. rewrite Htr. apply Hn.
  - unfold exec. rewrite (connect_no_url P r w Hurl). apply none_live_referenced, Hn.
Qed.

Lemma disconnect_none_live r w : live_is_referenced w -> none_live (exec (disconnect r) w).
Proof.
  intros Hw i t Hi. destruct (live t) eqn:Hl; [|reflexivity].
  destruct (disconnect_survivors r w i t Hi Hl) as (t0 & Hi0 & Hl0 & Hnot).
  exfalso. apply Hnot. apply (Hw i t0 Hi0 Hl0).
Qed.

Lemma idle_none_live w : idle w = true <-> none_live w.
Proof.
  unfold idle, none_live. rewrite forallb_forall. split.
  - intros H i t Hi. apply negb_true_iff, H, list_elem_of_In, (list_elem_of_lookup_2 _ i), Hi.
  - intros H t Hin. apply list_elem_of_In, list_elem_of_lookup_1 in Hin as [i Hi].
    apply negb_true_iff, (H i t Hi).
Qed.

(** A listener moves its transport from connecting to open, or closes it. *)
Lemma deliver_transports P r id e w :
  transports (exec (deliver P r id e) w) = transports w
  \/ exists t l, transports w !! id = Some t
                 /\ transports (exec (deliver P r id e) w) = <[id := set_life l t]> (transports w)
                 /\ (l = CLOSED \/ (l = OPEN /\ life t = CONNECTING)).
Proof.
  unfold deliver, lookup_transport, update_life, on_ws_open, on_ws_message, on_ws_error,
    on_ws_close, on_sio_connect, on_sio_message, on_sio_any, on_sio_error,
    on_sio_disconnect, on_sio_connect_error.
  unfold_m. simpl.
  destruct (transports w !! id) as [t|] eqn:Ht; simpl; [|left; reflexivity].
  destruct (tkind t), e; simpl; repeat case_decide; simpl; rewrite ?Ht;
    try (left; reflexivity);
    try (right; exists t; eexists; split; [reflexivity|]; split; [reflexivity|]; auto; fail).
  all: try match goal with
       | |- context [reconnect_wanted ?x] =>
           change (reconnect_wanted x) with (reconnect_wanted w);
           destruct (reconnect_wanted w) eqn:Hw
       end; rewrite ?scheduleReconnect_run; simpl; rewrite ?Ht;
    try (left; reflexivity);
    try (right; exists t; eexists; split; [reflexivity|]; split; [reflexivity|]; auto; fail).
  all: match goal with |- context [match ?a with [] => _ | _ => _ end] => destruct a as [|[] []] end;
    simpl; left; reflexivity.
Qed.

(** A turn that does not run [connect()] makes no transport live. *)
Lemma step_no_new_live P r i w j t' :
  runs_connect w i = false ->
  transports (exec (step P r i) w) !! j = Some t' -> live t' = true ->
  exists t, transports w !! j = Some t /\ live t = true.
Proof.
  intros Hi Hj Hl. destruct i as [| |text|id|id e|s]; simpl in *.
  - discriminate Hi.
  - destruct (disconnect_survivors r w j t' Hj Hl) as (t & Ht & Hlt & _). eauto.
  - destruct (send_frame P text w) as (_ & _ & Htr & _).
    unfold exec in *. unfold_m. destruct (send P text w) as [[] w']; simpl in *;
      rewrite Htr in Hj; eauto.
  - destruct (fire_timer_run P r id w) as [(t & Ht & Hp & _) | [_ Hrun]].
    + rewrite Ht in Hi. simpl in Hi. rewrite Hp in Hi.
      rewrite bool_decide_eq_true_2 in Hi by reflexivity. discriminate Hi.
    + unfold exec in Hj. rewrite Hrun in Hj. eauto.
  - destruct (deliver_transports P r id e w) as [Heq | (t & l & Ht & Heq & Hlife)];
      rewrite Heq in Hj; [eauto|].
    destruct (decide (j = id)) as [->|Hne].
    + rewrite list_lookup_insert_eq in Hj by (eapply lookup_lt_Some; eauto).
      injection Hj as <-. exists t. split; [exact Ht|].
      destruct Hlife as [-> | [-> Hc]]; [discriminate Hl|]. unfold live. rewrite Hc. reflexivity.
    + rewrite list_lookup_insert_ne in Hj by auto. eauto.
  - eauto.
Qed.

(** One turn keeps the single live transport when a [connect()] in it begins
    with no live transport. *)
Lemma step_keeps_one_live P r i w :
  at_most_one_live w -> (runs_connect w i = true -> idle w = true) ->
  at_most_one_live (exec (step P r i) w).
Proof.
  intros Hw Hidle. destruct (runs_connect w i) eqn:Hi.
  - specialize (Hidle eq_refl). apply idle_none_live in Hidle.
    apply live_is_referenced_at_most_one.
    destruct i as [| |text|id|id e|s]; simpl in *; try discriminate Hi.
    + apply connect_live_is_referenced, Hidle.
    + destruct (fire_timer_run P r id w) as [(t & Ht & Hp & Hrun) | [Hnp Hrun]];
        unfold exec; rewrite Hrun.
      * apply connect_live_is_referenced. exact Hidle.
      * apply none_live_referenced, Hidle.
  - intros j1 j2 t1 t2 H1 H2 Hl1 Hl2.
    destruct (step_no_new_live P r i w j1 t1 Hi H1 Hl1) as (u1 & Hu1 & Hlu1).
    destruct (step_no_new_live P r i w j2 t2 Hi H2 Hl2) as (u2 & Hu2 & Hlu2).
    apply (Hw j1 j2 u1 u2 Hu1 Hu2 Hlu1 Hlu2).
Qed.

Lemma connects_when_idle_run P turns :
  forall w n,
    at_most_one_live w -> connects_when_idle P w turns = true ->
    at_most_one_live (run P w (take n turns)).
Proof.
  induction turns as [|[i r] turns IH]; intros w n Hw Hc.
  - rewrite take_nil. exact Hw.
  - destruct n as [|n]; [exact Hw|]. simpl in *.
    apply andb_true_iff in Hc as [Hi Hc].
    apply IH; [|exact Hc]. apply step_keeps_one_live; [exact Hw|].
    intros Hr. rewrite Hr in Hi. exact Hi.
Qed.

(** Calls alone, with no [connect()] after a [connect()]: each [connect()]
    begins with no live transport. *)
Lemma disciplined_connects_when_idle P turns :
  forall flag w,
    disciplined flag turns = true ->
    live_is_referenced w -> (flag = false -> none_live w) ->
    connects_when_idle P w turns = true.
Proof.
  induction turns as [|[i r] turns IH]; intros flag w Hd Hw Hn; [reflexivity|].
  cbn [connects_when_idle].
  destruct i as [| |text|id|id e|s]; simpl in Hd; try discriminate Hd; simpl runs_connect.
  - apply andb_true_iff in Hd as [Hflag Hd]. apply negb_true_iff in Hflag.
    apply andb_true_iff. split; [apply idle_none_live, Hn, Hflag|].
    apply (IH true); [exact Hd | | discriminate].
    apply connect_live_is_referenced, Hn, Hflag.
  - assert (Hnone : none_live (exec (step P r call_disconnect) w))
      by (apply disconnect_none_live, Hw).
    simpl. apply (IH false); [exact Hd | apply none_live_referenced, Hnone | intros _; exact Hnone].
  - simpl. apply (IH flag); [exact Hd | exact Hw | exact Hn].
Qed.

(** C1, amended: at most one transport is connecting or open after every
    prefix of a run (calls, sends, events of the transports, firings of the
    reconnect timer, changes of the settings) in which every [connect()],
    called or started by the reconnect timer, begins while no transport is
    connecting or open.  The sequences of [connect()] and [disconnect()]
    calls, with no event in between, in which no [connect()] follows another
    [connect()] without a [disconnect()] are such runs. *)
Theorem connects_when_idle_keep_one_live P s turns :
  (disciplined false turns = true -> connects_when_idle P (initial s) turns = true)
  /\ (connects_when_idle P (initial s) turns = true ->
      forall n, at_most_one_live (run P (initial s) (take n turns))).
Proof.
  split.
  - intros Hd. apply (disciplined_connects_when_idle P turns false); [exact Hd | |].
    + intros i t Hi. discriminate Hi.
    + intros _ i t Hi. discriminate Hi.
  - intros Hc n. apply connects_when_idle_run; [|exact Hc].
    intros i j ti tj Hi. discriminate Hi.
Qed.

Lemma connects_when_idle_keep_one_live_witness :
  connects_when_idle Sample.browser (initial (Sample.settings "ws://host/x" true))
    [(call_connect, 0%Q); (transport_event 0 ev_ws_open, 0%Q);
     (transport_event 0 (ev_ws_close 1006 EmptyString), (1 # 2)%Q);
     (timer_fires 0, 0%Q); (call_disconnect, 0%Q); (call_connect, 0%Q)] = true
  /\ at_most_one_live
       (run Sample.browser (initial (Sample.settings "ws://host/x" true))
          (take 6 [(call_connect, 0%Q); (transport_event 0 ev_ws_open, 0%Q);
                   (transport_event 0 (ev_ws_close 1006 EmptyString), (1 # 2)%Q);
                   (timer_fires 0, 0%Q); (call_disconnect, 0%Q); (call_connect, 0%Q)])).
Proof.
  split; [vm_compute; reflexivity|].
  apply (proj2 (connects_when_idle_keep_one_live Sample.browser
                  (Sample.settings "ws://host/x" true)
                  [(call_connect, 0%Q); (transport_event 0 ev_ws_open, 0%Q);
                   (transport_event 0 (ev_ws_close 1006 EmptyString), (1 # 2)%Q);
                   (timer_fires 0, 0%Q); (call_disconnect, 0%Q); (call_connect, 0%Q)])).
  vm_compute. reflexivity.
Defined.

(** A WebSocket that [disconnect()] told to close is [CLOSING] until its
    close event arrives; it is not live any more. *)
Example disconnect_then_connect :
  map life
    (transports
       (run Sample.browser (initial (Sample.settings "ws://host/x" true))
          [(call_connect, 0%Q); (call_disconnect, 0%Q); (call_connect, 0%Q)]))
  = [CLOSING; CONNECTING].
Proof. vm_compute. reflexivity. Qed.

(** C1, as stated, fails: two [connect()] calls in a row leave two
    WebSockets in [CONNECTING]; the first is no longer referenced but nothing
    closed it.  ([reconnect_race] above is a second way to two live
    transports, with no [connect()] after a [connect()].) *)
Lemma connect_twice_counterexample :
  length (live_transports Sample.connected_twice) = 2
  /\ ~ at_most_one_live Sample.connected_twice.
Proof.
  split; [vm_compute; reflexivity|].
  intros H.
  specialize (H 0 1 {| tkind := WebSocketObj; target := "ws://host/x"; life := CONNECTING |}
                {| tkind := WebSocketObj; target := "ws://host/x"; life := CONNECTING |}
                eq_refl eq_refl eq_refl eq_refl).
  discriminate H.
Qed.

(** * The client, further *)

Lemma no_pending_filter (ts : list Timer) :
  (forall i t, ts !! i = Some t -> status t <> Pending) ->
  filter (fun t => status t = Pending) ts = [].
Proof.
  induction ts as [|t ts IH]; intros H; [reflexivity|].
  rewrite filter_cons. destruct (decide (status t = Pending)) as [Hp|Hp].
  - exfalso. apply (H 0 t eq_refl Hp).
  - apply IH. intros i t' Hi. apply (H (S i) t' Hi).
Qed.

(** X1: in every state the client can reach at most one reconnect timer is
    pending: two pending timers are the same timer, and it is the one
    [_reconnectTimer] holds ([scheduleReconnect] and [disconnect] clear the
    old timer before anything else). *)
Theorem single_pending_timer P s w i j ti tj :
  reachable P s w ->
  timers w !! i = Some ti -> status ti = Pending ->
  timers w !! j = Some tj -> status tj = Pending ->
  i = j /\ _reconnectTimer (this w) = Some i.
Proof.
  intros Hr Hi Hpi Hj Hpj. pose proof (reachable_timer_tracked P s w Hr) as Ht.
  pose proof (Ht i ti Hi Hpi) as Hi'. pose proof (Ht j tj Hj Hpj) as Hj'.
  split; [congruence | exact Hi'].
Qed.

Lemma single_pending_timer_witness :
  reachable Sample.browser (Sample.settings "ws://host/x" true) Sample.ws_dropped
  /\ _reconnectTimer (this Sample.ws_dropped) = Some 0.
Proof.
  assert (Hr : reachable Sample.browser (Sample.settings "ws://host/x" true) Sample.ws_dropped).
  { apply (reach_step _ _ _ (1 # 2)%Q (transport_event 0 (ev_ws_close 1006 EmptyString))).
    apply (reach_step _ _ _ 0%Q (transport_event 0 ev_ws_open)).
    apply (reach_step _ _ _ 0%Q call_connect). apply reach_initial. }
  split; [exact Hr|].
  refine (proj2 (single_pending_timer Sample.browser _ Sample.ws_dropped 0 0
                   {| delay := _; status := Pending |} {| delay := _; status := Pending |}
                   Hr _ eq_refl _ eq_refl)); vm_compute; reflexivity.
Defined.

(** X2: after [disconnect()], whether it returned or threw, and through
    any later sends, transport events, timer turns and changes of the
    settings with no [connect()] call among them, the client stays told to
    be closed, no reconnect timer is pending and no transport is created. *)
Theorem no_reconnect_after_disconnect P s w r turns :
  reachable P s w -> no_connect_call turns ->
  _manualClose (this (run P (exec (disconnect r) w) turns)) = true
  /\ pending_timers (run P (exec (disconnect r) w) turns) = []
  /\ length (transports (run P (exec (disconnect r) w) turns)) = length (transports w).
Proof.
  intros Hr Hn. destruct (disconnect_quiesces P s w r turns Hr Hn) as [[Hm Hp] Hlen].
  split; [exact Hm|]. split; [|exact Hlen]. apply no_pending_filter, Hp.
Qed.

Lemma no_reconnect_after_disconnect_witness :
  reachable Sample.browser (Sample.settings "ws://host/x" true) Sample.ws_dropped
  /\ pending_timers
       (run Sample.browser (exec (disconnect 0) Sample.ws_dropped)
          [(timer_fires 0, 0%Q); (call_send "ping:1", 0%Q)]) = [].
Proof.
  assert (Hr : reachable Sample.browser (Sample.settings "ws://host/x" true) Sample.ws_dropped).
  { apply (reach_step _ _ _ (1 # 2)%Q (transport_event 0 (ev_ws_close 1006 EmptyString))).
    apply (reach_step _ _ _ 0%Q (transport_event 0 ev_ws_open)).
    apply (reach_step _ _ _ 0%Q call_connect). apply reach_initial. }
  split; [exact Hr|].
  refine (proj1 (proj2 (no_reconnect_after_disconnect Sample.browser _ Sample.ws_dropped 0
                          [(timer_fires 0, 0%Q); (call_send "ping:1", 0%Q)] Hr _))).
  repeat constructor; discriminate.
Defined.

(** [send] always returns, and returns what [isOpen] tells. *)
Lemma send_result P w text :
  result (send P text) w = Some (bool_decide (isOpen w = Some true)).
Proof.
  unfold send, isOpen, lookup_transport, WebSocket_send_call. unfold_m.
  destruct (connection (this w)) as [id|]; [|reflexivity].
  cbn beta iota. repeat case_decide; cbn beta iota;
    rewrite ?send_socketio_run; simpl; try reflexivity;
    repeat case_bool_decide; try reflexivity; simplify_eq; try congruence.
Qed.

(** X3: right after [disconnect()], from any state and also when the call
    threw, the connection does not count as open and [send] returns false. *)
Theorem send_fails_after_disconnect P r w text :
  result (send P text) (exec (disconnect r) w) = Some false
  /\ isOpen (exec (disconnect r) w) <> Some true.
Proof.
  assert (Hopen : isOpen (exec (disconnect r) w) <> Some true).
  { unfold isOpen, disconnect, Socket_disconnect_call, WebSocket_close_call,
      on_sio_disconnect, lookup_transport, update_life, clearTimeout, reconnect_wanted.
    unfold_m. simpl.
    destruct (connection (this w)) as [id|] eqn:Hc; simpl; [|discriminate].
    destruct (connectionType (this w)) as [[]|] eqn:Hty; simpl;
      destruct (transports w !! id) as [[[] tg []]|] eqn:Ht; simpl; rewrite ?Ht; simpl;
      rewrite ?Hc, ?Hty, ?Ht; simpl; try discriminate.
    all: rewrite ?Hty; simpl; rewrite ?Ht; simpl; discriminate. }
  split; [|exact Hopen].
  rewrite send_result. rewrite bool_decide_eq_false_2 by exact Hopen. reflexivity.
Qed.

Lemma disconnect_throws_iff r w : result (disconnect r) w = None <-> kind_mismatch w.
Proof.
  unfold kind_mismatch, disconnect, Socket_disconnect_call, WebSocket_close_call,
    on_sio_disconnect, lookup_transport, update_life, clearTimeout, reconnect_wanted.
  unfold_m. simpl.
  destruct (connection (this w)) as [id|] eqn:Hc; simpl.
  2:{ split; [discriminate|]. intros (id & Hid & _). discriminate. }
  destruct (connectionType (this w)) as [[]|] eqn:Hty; simpl;
    destruct (transports w !! id) as [[[] tg []]|] eqn:Ht; simpl; rewrite ?Ht; simpl;
    (split; [try discriminate; intros _; exists id; rewrite ?Ht; simpl; repeat split; congruence
            | intros (id' & Hid & Hty' & Hk); simplify_eq; try reflexivity;
              try (rewrite Ht in Hk; simpl in Hk; congruence)]).
Qed.

(** X4: of the calls that enter the client, [connect()], [send(text)] and
    the callback of the reconnect timer always return, and [disconnect()]
    throws exactly when the recorded kind is socketio while the object in
    [connection] is no Socket.IO socket.  An observer is taken to return:
    [disconnect()] on a connected socket runs the disconnect listener and
    with it [onClose].  The listeners themselves, which call the observers of
    the page, are not covered. *)
Theorem only_disconnect_throws P r w :
  result (connect P r) w = Some tt
  /\ (forall text, exists sent, result (send P text) w = Some sent)
  /\ (forall id, result (fire_timer P r id) w = Some tt)
  /\ (result (disconnect r) w = None <-> kind_mismatch w).
Proof.
  split; [apply connect_never_throws|]. split; [|split].
  - intros text. eexists. apply send_result.
  - intros id. destruct (fire_timer_run P r id w) as [(t & _ & _ & Hrun) | [_ Hrun]].
    + pose proof (connect_never_throws P r
                    (with_timers (fun ts => <[id := {| delay := delay t; status := Fired |}]> ts) w))
        as Hc.
      unfold result in *. rewrite Hrun. exact Hc.
    + unfold result. rewrite Hrun. reflexivity.
  - apply disconnect_throws_iff.
Qed.

(** ** Bounds of the delay *)

Lemma is_double_le_round64 q x :
  is_double q = true -> (q <= x)%Q -> js_le (Fin q) (round64 x).
Proof.
  intros Hq Hx. destruct (is_double_round q Hq) as (q' & Hr & He).
  pose proof (round64_mono q x Hx) as Hm. rewrite Hr in Hm.
  destruct (round64 x); simpl in *; auto. lra.
Qed.

(** X5: for a draw of [Math.random()] and a base delay that is a double,
    the delay of the timer [scheduleReconnect] sets is at least the base and
    at most the double [base + 250 + 8000].  The bound is reached: with the
    base 1500, the largest draw and the full backoff the delay is 9750, so
    the delay is not always below [base + 8250].  The backoff is 300 ms for
    each earlier attempt up to 26 attempts, and 8000 ms from the 27th on. *)
Theorem reconnect_delay_bounded r w :
  unit_interval r -> is_double r = true ->
  is_double (Number_or_1500 (reconnectDelay (App_state w))) = true ->
  exists d,
    timers (exec (scheduleReconnect r) w) !! length (timers w)
    = Some {| delay := d; status := Pending |}
    /\ js_le (Fin (Number_or_1500 (reconnectDelay (App_state w)))) d
    /\ js_le d (js_add (js_add (Fin (Number_or_1500 (reconnectDelay (App_state w))))
                          (Fin 250)) (Fin 8000))
    /\ (_attempt (this w) <= 26 ->
        backoff_of (_attempt (this w)) = Fin (inject_Z (Z.of_nat (_attempt (this w)) * 300)))
    /\ (27 <= _attempt (this w) -> backoff_of (_attempt (this w)) = Fin 8000)
    /\ js_add (js_add (Fin 1500) (jitter_of (1 - pow2 (-53)))) (Fin 8000)
       = js_add (js_add (Fin 1500) (Fin 250)) (Fin 8000).
Proof.
  intros Hr Hd Hbase. unfold exec. rewrite scheduleReconnect_run.
  unfold scheduled; cbn [snd timers].
  eexists. split.
  { rewrite lookup_app_r by (rewrite length_clear_timer; lia).
    rewrite length_clear_timer, Nat.sub_diag. reflexivity. }
  set (base := Number_or_1500 (reconnectDelay (App_state w))) in *.
  destruct (jitter_range r Hr Hd) as (j & Hj & Hj0 & Hj1).
  destruct (backoff_of_value (_attempt (this w))) as (b & Hb & Hbv).
  assert (Hb0 : (0 <= b)%Q).
  { rewrite Hbv. apply Q.min_glb; [discriminate|].
    apply Qmult_le_0_compat; [|discriminate].
    rewrite <- (Zle_Qle 0). lia. }
  assert (Hb1 : (b <= 8000)%Q) by (rewrite Hbv; apply Q.le_min_l).
  rewrite Hj, Hb.
  split; [|split; [|split; [|split; [|vm_compute; reflexivity]]]].
  - assert (H1 : js_le (Fin base) (js_add (Fin base) (Fin j)))
      by (apply is_double_le_round64; [exact Hbase | lra]).
    destruct (js_add (Fin base) (Fin j)) as [| |q1|]; simpl in H1; try tauto;
      try exact I.
    apply is_double_le_round64; [exact Hbase | lra].
  - apply js_add_mono; [|exact Hb1].
    apply js_add_mono; [apply js_le_refl_Fin | lra].
  - intros Hn. rewrite <- Hb. apply backoff_of_small, Hn.
  - intros Hn. rewrite <- Hb. apply backoff_of_large, Hn.
Qed.

Lemma reconnect_delay_bounded_witness :
  unit_interval (1 # 2) /\ is_double (1 # 2) = true /\ is_double 1500 = true
  /\ exists d,
       timers (exec (scheduleReconnect (1 # 2)) (initial (Sample.settings "ws://host/x" true)))
         !! 0 = Some {| delay := d; status := Pending |}
       /\ js_le (Fin 1500) d /\ js_le d (Fin 9750).
Proof.
  assert (Hr : unit_interval (1 # 2)) by (split; [discriminate | reflexivity]).
  split; [exact Hr|]. split; [reflexivity|]. split; [reflexivity|].
  destruct (reconnect_delay_bounded (1 # 2) (initial (Sample.settings "ws://host/x" true))
              Hr eq_refl eq_refl)
    as (d & Hd & Hlo & Hhi & _).
  exists d. split; [exact Hd|]. split; [exact Hlo | exact Hhi].
Defined.

(** ** Endless retry *)

Lemma scheduled_fields r w0 :
  _attempt (this (scheduled r w0)) = S (_attempt (this w0))
  /\ _reconnectTimer (this (scheduled r w0)) = Some (length (timers w0))
  /\ (exists d, timers (scheduled r w0) !! length (timers w0)
                = Some {| delay := d; status := Pending |})
  /\ App_state (scheduled r w0) = App_state w0
  /\ transports (scheduled r w0) = transports w0
  /\ length (timers (scheduled r w0)) = S (length (timers w0)).
Proof.
  unfold scheduled; simpl. repeat split.
  - eexists. rewrite lookup_app_r by (rewrite length_clear_timer; lia).
    rewrite length_clear_timer, Nat.sub_diag. reflexivity.
  - rewrite length_app, length_clear_timer. simpl. lia.
Qed.

Lemma failing_connect P r w message :
  JsString.truthy (serverUrl (App_state w)) = true ->
  construction P (serverUrl (App_state w)) = Threw message ->
  _attempt (this (exec (connect P r) w)) = S (_attempt (this w))
  /\ _reconnectTimer (this (exec (connect P r) w)) = Some (length (timers w))
  /\ (exists d, timers (exec (connect P r) w) !! length (timers w)
                = Some {| delay := d; status := Pending |})
  /\ App_state (exec (connect P r) w) = App_state w
  /\ transports (exec (connect P r) w) = transports w.
Proof.
  intros Hurl Hthrew.
  destruct (connect_run P r w Hurl) as (w0 & logged & Hthis & Happ & Htim & Htr & _ & Hc).
  rewrite Hthrew in Hc. destruct Hc as [Hc _]. unfold exec. rewrite Hc. cbn [snd].
  destruct (scheduled_fields r w0) as (Ha & Hrt & Hd & Hs & Ht & _).
  rewrite Ha, Hrt, Hs, Ht, Hthis, Happ, Htr. simpl. rewrite <- Htim. auto.
Qed.

(** X6: a target whose transport cannot be constructed is retried without
    end: after [connect()] and any number of firings of the reconnect timer,
    the attempt counter has grown by one for each, a new timer is pending,
    and no transport exists that was not there before.  There is no limit on
    the attempts, and the auto-reconnect setting is not consulted. *)
Theorem failing_target_retries_forever P r w message n :
  JsString.truthy (serverUrl (App_state w)) = true ->
  construction P (serverUrl (App_state w)) = Threw message ->
  _attempt (this (Nat.iter n (fire_pending P r) (exec (connect P r) w)))
  = _attempt (this w) + S n
  /\ (exists id d,
        _reconnectTimer (this (Nat.iter n (fire_pending P r) (exec (connect P r) w))) = Some id
        /\ timers (Nat.iter n (fire_pending P r) (exec (connect P r) w)) !! id
           = Some {| delay := d; status := Pending |})
  /\ transports (Nat.iter n (fire_pending P r) (exec (connect P r) w)) = transports w
  /\ App_state (Nat.iter n (fire_pending P r) (exec (connect P r) w)) = App_state w.
Proof.
  intros Hurl Hthrew. induction n as [|n IH]; simpl.
  - destruct (failing_connect P r w message Hurl Hthrew) as (Ha & Hrt & [d Hd] & Hs & Ht).
    rewrite Ha. split; [lia|]. split; [eauto|]. auto.
  - destruct IH as (Ha & (id & d & Hrt & Hd) & Ht & Hs).
    set (wn := Nat.iter n (fire_pending P r) (exec (connect P r) w)) in *.
    unfold fire_pending. rewrite Hrt.
    destruct (fire_timer_run P r id wn) as [(t & Htm & Hp & Hrun) | [Hno _]].
    2:{ exfalso. apply (Hno _ Hd). reflexivity. }
    unfold exec at 1 2 3 4 5. rewrite Hrun.
    set (w1 := with_timers _ wn).
    assert (Hurl1 : JsString.truthy (serverUrl (App_state w1)) = true)
      by (subst w1; simpl; rewrite Hs; exact Hurl).
    assert (Hthrew1 : construction P (serverUrl (App_state w1)) = Threw message)
      by (subst w1; simpl; rewrite Hs; exact Hthrew).
    destruct (failing_connect P r w1 message Hurl1 Hthrew1) as (Ha1 & Hrt1 & [d1 Hd1] & Hs1 & Ht1).
    unfold exec in *. rewrite Ha1, Hrt1, Hs1, Ht1. subst w1; simpl.
    split; [rewrite Ha; lia|]. split; [eauto|]. auto.
Qed.

Lemma failing_target_retries_forever_witness :
  construction Sample.browser "ws://host:99999/x" = Threw "The URL is invalid."
  /\ _attempt (this (Nat.iter 3 (fire_pending Sample.browser 0)
                       (exec (connect Sample.browser 0)
                          (initial (Sample.settings "ws://host:99999/x" true))))) = 4.
Proof.
  split; [reflexivity|].
  exact (proj1 (failing_target_retries_forever Sample.browser 0
                  (initial (Sample.settings "ws://host:99999/x" true))
                  "The URL is invalid." 3 eq_refl eq_refl)).
Defined.

(** ** More on the client *)

Lemma disconnect_closes_referenced_witness :
  connection (this Sample.ws_opened) = Some 0
  /\ result (disconnect 0) Sample.ws_opened = Some tt
  /\ connection (this (exec (disconnect 0) Sample.ws_opened)) = None
  /\ WebSocket_close 0 1000 "client-close" ∈ emitted (disconnect 0) Sample.ws_opened.
Proof.
  split; [reflexivity|].
  destruct (disconnect_closes_referenced 0 Sample.ws_opened 0
              {| tkind := WebSocketObj; target := "ws://host/x"; life := OPEN |} websocket
              eq_refl eq_refl eq_refl eq_refl) as (Hres & Hc & Hlive).
  split; [exact Hres|]. split; [exact Hc|]. exact (proj1 (Hlive eq_refl)).
Defined.

(** X8: with auto-reconnect off, or after [disconnect()], a close event (the
    close event of a WebSocket, the disconnect event of a socket) is only
    reported: the observer is told, no timer is set and the attempt
    counter stays. *)
Theorem close_without_reconnect P r w id t e :
  transports w !! id = Some t -> is_close_event t e = true ->
  reconnect_wanted w = false ->
  timers (exec (deliver P r id e) w) = timers w
  /\ this (exec (deliver P r id e) w) = this w
  /\ (exists code reason, onClose code reason ∈ emitted (deliver P r id e) w)
  /\ transports (exec (deliver P r id e) w) = <[id := set_life CLOSED t]> (transports w).
Proof.
  intros Ht He Hw.
  unfold deliver, is_close_event, lookup_transport, update_life in *. unfold_m.
  simpl. rewrite Ht. cbn beta iota.
  destruct (tkind t), e; try discriminate; repeat case_decide;
    try (rewrite ?bool_decide_eq_true_2 in He by assumption; discriminate);
    try (rewrite ?bool_decide_eq_false_2 in He by assumption; discriminate).
  all: unfold on_ws_close, on_sio_disconnect; unfold_m; simpl;
    change (reconnect_wanted (with_trace ?f (with_trace ?g (with_transports ?h w))))
      with (reconnect_wanted w); rewrite Hw; simpl; rewrite ?Ht;
    repeat split; try (destruct (this w); reflexivity);
    do 2 eexists; rewrite <- app_assoc, drop_app_length;
    apply elem_of_cons; right; apply elem_of_cons; left; reflexivity.
Qed.

Lemma close_without_reconnect_witness :
  reconnect_wanted Sample.ws_opened_no_auto = false
  /\ timers (exec (deliver Sample.browser 0 0 (ev_ws_close 1006 EmptyString))
               Sample.ws_opened_no_auto) = [].
Proof.
  split; [reflexivity|].
  exact (proj1 (close_without_reconnect Sample.browser 0 Sample.ws_opened_no_auto 0
                  {| tkind := WebSocketObj; target := "ws://host/x"; life := OPEN |}
                  (ev_ws_close 1006 EmptyString) eq_refl eq_refl eq_refl)).
Defined.

(** X9: on an open Socket.IO socket a [message] with a string and a custom
    event with one string argument reach [onMessage] with exactly that
    string; a custom event whose name is one of connect, disconnect,
    message, error and connect_error reaches nobody. *)
Theorem sio_string_verbatim P r w id t text :
  transports w !! id = Some t -> tkind t = SocketObj -> life t = OPEN ->
  emitted (deliver P r id (ev_sio_message (JStr text))) w = [Log_rx text; onMessage text]
  /\ (forall eventName,
        emitted (deliver P r id (ev_sio_any eventName [JStr text])) w
        = if passed_over eventName then [] else [Log_rx text; onMessage text]).
Proof.
  intros Ht Hk Hl. split.
  - unfold deliver, lookup_transport, on_sio_message. unfold_m. simpl.
    rewrite Ht, Hk. cbn beta iota. rewrite decide_True by exact Hl. simpl.
    rewrite <- app_assoc, drop_app_length. reflexivity.
  - intros eventName. unfold deliver, lookup_transport, on_sio_any, passed_over. unfold_m.
    simpl. rewrite Ht, Hk. cbn beta iota. rewrite decide_True by exact Hl.
    repeat case_bool_decide; simpl; rewrite ?drop_all;
      rewrite <- ?app_assoc, ?drop_app_length; try reflexivity;
      repeat match goal with H : _ ∉ _ |- _ => rewrite !not_elem_of_cons in H end;
      repeat match goal with H : _ ∈ _ |- _ => rewrite !elem_of_cons, elem_of_nil in H end;
      intuition congruence.
Qed.

Lemma sio_string_verbatim_witness :
  transports Sample.sio_opened !! 0
  = Some {| tkind := SocketObj; target := "https://host"; life := OPEN |}
  /\ emitted (deliver Sample.browser 0 0 (ev_sio_any "status" [JStr "uptime:42"]))
       Sample.sio_opened
     = [Log_rx "uptime:42"; onMessage "uptime:42"].
Proof.
  split; [reflexivity|].
  exact (proj2 (sio_string_verbatim Sample.browser 0 Sample.sio_opened 0
                  {| tkind := SocketObj; target := "https://host"; life := OPEN |}
                  "uptime:42" eq_refl eq_refl eq_refl) "status").
Defined.

(** X10: a [connect()] to a Socket.IO target that constructs no socket
    leaves a WebSocket that was referenced before in [connection] under the
    kind [socketio]; the next [disconnect()] throws. *)
Theorem failed_switch_breaks_disconnect P r r' w id t :
  connection (this w) = Some id -> transports w !! id = Some t ->
  tkind t = WebSocketObj ->
  JsString.truthy (serverUrl (App_state w)) = true ->
  _detectConnectionType (serverUrl (App_state w)) = socketio ->
  (forall k tg, construction P (serverUrl (App_state w)) <> Constructed k tg) ->
  kind_mismatch (exec (connect P r) w)
  /\ result (disconnect r') (exec (connect P r) w) = None.
Proof.
  intros Hc Ht Hk Hurl Hty Hcons.
  assert (Hm : kind_mismatch (exec (connect P r) w)).
  { destruct (connect_run P r w Hurl) as (w0 & logged & Hthis & _ & _ & Htr & _ & Hrun).
    unfold kind_mismatch, exec. exists id.
    destruct (construction P _) as [k tg| |]; [exfalso; apply (Hcons k tg); reflexivity| |];
      destruct Hrun as [Hrun _]; rewrite Hrun; simpl; rewrite Hthis, Htr, Ht; simpl;
      rewrite Hc, Hty, Hk; repeat split; discriminate. }
  split; [exact Hm | apply disconnect_throws_iff, Hm].
Qed.

Lemma failed_switch_breaks_disconnect_witness :
  result (disconnect 0) Sample.switched_target = None.
Proof.
  refine (proj2 (failed_switch_breaks_disconnect Sample.browser 0 0
            (exec (step Sample.browser 0
                     (settings_changed (Sample.settings "https://host:99999" true)))
               Sample.ws_opened)
            0 {| tkind := WebSocketObj; target := "ws://host/x"; life := OPEN |}
            eq_refl eq_refl eq_refl eq_refl eq_refl _)).
  intros k tg H. vm_compute in H. discriminate H.
Defined.

(** X11: the reconnect button ([disconnect()] then [connect()]): with a
    transport in [connection] that cannot run [disconnect()] the action fails
    with the type error, [connect()] is never reached, and the client is
    left told to stay closed; in every other state the action completes, and
    when every live transport was the referenced one and of the recorded
    kind, at most one transport is live afterwards.  (An open socket kept
    under the kind websocket is not closed by [disconnect()]:
    [reconnect_leaves_two_live] below.) *)
Theorem reconnect_action P r registry name el w :
  registry name = Some (app_reconnect P r) ->
  (kind_mismatch w ->
   fst (Actions_run registry name el w) = Failed "this.connection.disconnect is not a function"
   /\ transports (snd (Actions_run registry name el w)) = transports w
   /\ connection (this (snd (Actions_run registry name el w))) = connection (this w)
   /\ _manualClose (this (snd (Actions_run registry name el w))) = true)
  /\ (~ kind_mismatch w ->
      fst (Actions_run registry name el w) = Completed
      /\ (live_is_referenced w -> at_most_one_live (snd (Actions_run registry name el w)))).
Proof.
  intros Hreg. unfold Actions_run. rewrite Hreg. unfold app_reconnect. unfold_m.
  pose proof (disconnect_throws_iff r w) as Hthrow. unfold result in Hthrow.
  pose proof (disconnect_effect r w) as (Hm & _ & _ & _ & _ & _ & _ & _).
  pose proof (disconnect_none_live r w) as Hnone. unfold exec in *.
  destruct (disconnect r w) as [[[]|message] w1] eqn:Hd; simpl in *.
  - split; [intros Hk; apply Hthrow in Hk; discriminate|]. intros _.
    pose proof (connect_never_throws P r w1) as Hc. unfold result in Hc.
    pose proof (connect_live_is_referenced P r w1) as Hl. unfold exec in Hl.
    destruct (connect P r w1) as [[[]|m] w2]; simpl in *; [|discriminate].
    split; [reflexivity|]. intros Hw. apply live_is_referenced_at_most_one, Hl, Hnone, Hw.
  - split; [|intros Hk; exfalso; apply Hk, Hthrow; reflexivity]. intros Hk. simpl.
    revert Hd. unfold disconnect, Socket_disconnect_call, WebSocket_close_call,
      on_sio_disconnect, lookup_transport, update_life, clearTimeout, reconnect_wanted.
    unfold_m. simpl.
    destruct (connection (this w)) as [id|] eqn:Hc; simpl; [|discriminate].
    destruct (connectionType (this w)) as [[]|] eqn:Hty; simpl;
      destruct (transports w !! id) as [[[] tg []]|] eqn:Ht; simpl; rewrite ?Ht; simpl;
      intros Hd; simplify_eq; simpl; rewrite ?Hc; auto.
Qed.

Lemma reconnect_action_witness :
  kind_mismatch Sample.switched_target
  /\ fst (Actions_run
            (fun name => if String.eqb name "app:reconnect"
                         then Some (app_reconnect Sample.browser 0) else None)
            "app:reconnect" None Sample.switched_target)
     = Failed "this.connection.disconnect is not a function".
Proof.
  assert (Hk : kind_mismatch Sample.switched_target).
  { exists 0. repeat split; [vm_compute; discriminate]. }
  split; [exact Hk|].
  exact (proj1 (proj1 (reconnect_action Sample.browser 0
                         (fun name => if String.eqb name "app:reconnect"
                                      then Some (app_reconnect Sample.browser 0) else None)
                         "app:reconnect" None Sample.switched_target eq_refl) Hk)).
Defined.

(** The reconnect action with an open socket referenced under the kind
    websocket: nothing matches in [disconnect()], the socket stays open, and
    [connect()] adds a WebSocket. *)
Example reconnect_leaves_two_live :
  connection (this Sample.socket_kept) = Some 0
  /\ connectionType (this Sample.socket_kept) = Some websocket
  /\ map tkind (live_transports Sample.socket_kept) = [SocketObj]
  /\ result (app_reconnect Sample.browser 0 None) Sample.socket_kept = Some tt
  /\ map tkind (live_transports (exec (app_reconnect Sample.browser 0 None) Sample.socket_kept))
     = [SocketObj; WebSocketObj].
Proof. repeat split; vm_compute; reflexivity. Qed.

(** What one [send] emits: the call of the transport and the tx log, or at
    most a warning. *)
Lemma send_emitted P text w :
  (result (send P text) w = Some true
   /\ exists id, emitted (send P text) w
                 = [match connectionType (this w) with
                    | Some socketio =>
                        Socket_emit id (fst (socketio_emission P text))
                          (snd (socketio_emission P text))
                    | _ => WebSocket_send id text
                    end; Log_tx text])
  \/ (result (send P text) w = Some false
      /\ (emitted (send P text) w = []
          \/ exists m, emitted (send P text) w = [Log_ws m lvl_warn])).
Proof.
  unfold send, lookup_transport, WebSocket_send_call. unfold_m.
  destruct (connection (this w)) as [id|].
  2:{ right. simpl. rewrite drop_app_length. eauto. }
  cbn beta iota. rewrite ?send_socketio_run.
  repeat case_decide; cbn beta iota; rewrite ?send_socketio_run; simpl;
    rewrite <- ?app_assoc, ?drop_app_length, ?drop_all;
    repeat match goal with H : connectionType _ = _ |- _ => rewrite H end;
    eauto 6.
Qed.

(** X12: the logger behind [send]: the tx counter grows by one when [send]
    returns true and stays otherwise; a refused send writes at most a warning
    line and is no error for the counters, and the rx counter never moves. *)
Theorem send_counts_tx P url clock n text w L :
  Log.tx_count (log_effects url clock n (emitted (send P text) w) L)
  = Log.tx_count L + (if bool_decide (result (send P text) w = Some true) then 1 else 0)
  /\ Log.rx_count (log_effects url clock n (emitted (send P text) w) L) = Log.rx_count L
  /\ Log.err_count (log_effects url clock n (emitted (send P text) w) L) = Log.err_count L.
Proof.
  destruct (send_emitted P text w) as [(Hr & id & He) | (Hr & [He | (m & He)])];
    rewrite Hr, He; [rewrite bool_decide_eq_true_2 by reflexivity
                    |rewrite bool_decide_eq_false_2 by discriminate ..].
  - destruct (connectionType (this w)) as [[]|]; simpl; repeat split; lia.
  - simpl. repeat split; lia.
  - simpl. repeat split; lia.
Qed.

(** * The page around the client: properties *)

(** ** Numbers of the settings form *)

Lemma Qle_bool_false x y : Qle_bool x y = false -> (y < x)%Q.
Proof.
  intros H. apply Qnot_le_lt. intros Hle. apply Qle_bool_iff in Hle. congruence.
Qed.

Lemma clamp_Fin q a b :
  (a <= b)%Q ->
  exists q', clamp (Fin q) (Fin a) (Fin b) = Fin q'
             /\ (a <= q' /\ q' <= b)%Q
             /\ ((a <= q /\ q <= b)%Q -> q' == q).
Proof.
  intros Hab. unfold clamp. simpl.
  destruct (Qle_bool q a) eqn:Hqa; simpl.
  - apply Qle_bool_iff in Hqa.
    rewrite (proj2 (Qle_bool_iff a b) Hab).
    exists a. split; [reflexivity|]. split; [lra|]. intros [? ?]. lra.
  - apply Qle_bool_false in Hqa.
    destruct (Qle_bool q b) eqn:Hqb.
    + apply Qle_bool_iff in Hqb. exists q. split; [reflexivity|]. split; [lra|]. reflexivity.
    + apply Qle_bool_false in Hqb. exists b. split; [reflexivity|]. split; [lra|].
      intros [? ?]. lra.
Qed.

Lemma clamp_finite n a b :
  (a <= b)%Q -> n <> NaN ->
  exists q, clamp n (Fin a) (Fin b) = Fin q /\ (a <= q /\ q <= b)%Q.
Proof.
  intros Hab Hn. destruct n as [| |q|]; [contradiction| | |].
  - unfold clamp. simpl. rewrite (proj2 (Qle_bool_iff a b) Hab).
    exists a. split; [reflexivity|]. lra.
  - destruct (clamp_Fin q a b Hab) as (q' & Hc & Hr & _). eauto.
  - exists b. split; [reflexivity|]. lra.
Qed.

Lemma reconnectDelay_input_Fin value :
  exists q, reconnectDelay_input value = Fin q /\ (250 <= q /\ q <= 60000)%Q.
Proof.
  unfold reconnectDelay_input. apply clamp_finite; [discriminate|].
  unfold number_or. destruct value as [| |q|]; try discriminate.
  destruct (Qeq_bool q 0); discriminate.
Qed.

(** X13: [clamp(n, a, b)] with [a <= b] brings every number, the infinities
    included, into [a, b] and leaves a number of that range as it is; it
    does not catch [NaN], which comes back as [NaN]. *)
Theorem clamp_range n a b :
  (a <= b)%Q ->
  (n <> NaN -> exists q, clamp n (Fin a) (Fin b) = Fin q /\ (a <= q /\ q <= b)%Q)
  /\ (forall q, n = Fin q -> (a <= q /\ q <= b)%Q ->
                exists q', clamp n (Fin a) (Fin b) = Fin q' /\ q' == q)
  /\ clamp NaN (Fin a) (Fin b) = NaN.
Proof.
  intros Hab. split; [|split; [|reflexivity]].
  - intros Hn. apply clamp_finite; assumption.
  - intros q -> Hq. destruct (clamp_Fin q a b Hab) as (q' & Hc & _ & Heq). eauto.
Qed.

Lemma clamp_range_witness :
  (250 <= 60000)%Q
  /\ (exists q, clamp PosInf (Fin 250) (Fin 60000) = Fin q /\ (250 <= q /\ q <= 60000)%Q)
  /\ clamp NaN (Fin 250) (Fin 60000) = NaN.
Proof.
  assert (H : (250 <= 60000)%Q) by discriminate.
  split; [exact H|].
  destruct (clamp_range (Fin 100) 250 60000 H) as (_ & _ & Hnan).
  destruct (clamp_range PosInf 250 60000 H) as (Hfin & _ & _).
  destruct (Hfin ltac:(discriminate)) as (q & Hq & Hr).
  split; [eauto | exact Hnan].
Defined.

(** X14: whatever is typed into the delay field, the stored delay is a
    number between 250 and 60000 (an empty or unreadable field and 0 give
    250), so [scheduleReconnect] uses it as the base delay and never falls
    back to 1500. *)
Theorem reconnectDelay_input_range value :
  exists q, reconnectDelay_input value = Fin q
            /\ (250 <= q /\ q <= 60000)%Q
            /\ Number_or_1500 (as_setting (reconnectDelay_input value)) = q
            /\ (number_or value (Fin 0) = Fin 0 -> q = 250%Q).
Proof.
  destruct (reconnectDelay_input_Fin value) as (q & Hq & Hr).
  exists q. rewrite Hq. split; [reflexivity|]. split; [exact Hr|]. split.
  - simpl. destruct (Qeq_bool q 0) eqn:H0; [|reflexivity].
    apply Qeq_bool_iff in H0. lra.
  - intros Hz. unfold reconnectDelay_input in Hq. rewrite Hz in Hq.
    vm_compute in Hq. congruence.
Qed.

(** X15: the validator of the delay field and the listener agree: the
    field is valid ([Validators.numberIn(v, 250, 60000)]) exactly when the
    listener stores the number that was typed; an invalid entry is stored
    as a different number. *)
Theorem numberIn_iff_stored_unchanged value :
  numberIn value 250 60000 = true <->
  exists q q', value = Fin q /\ reconnectDelay_input value = Fin q' /\ q' == q.
Proof.
  assert (Hab : (250 <= 60000)%Q) by discriminate.
  split.
  - destruct value as [| |q|]; try discriminate. simpl.
    rewrite andb_true_iff, !Qle_bool_iff. intros [H1 H2].
    unfold reconnectDelay_input, number_or.
    destruct (Qeq_bool q 0) eqn:H0; [apply Qeq_bool_iff in H0; lra|].
    destruct (clamp_Fin q 250 60000 Hab) as (q' & Hc & _ & Heq).
    exists q, q'. split; [reflexivity|]. split; [exact Hc|]. apply Heq. lra.
  - intros (q & q' & -> & Hc & Heq). simpl.
    destruct (reconnectDelay_input_Fin (Fin q)) as (q'' & Hc' & Hr).
    rewrite Hc in Hc'. injection Hc' as <-.
    rewrite andb_true_iff, !Qle_bool_iff. lra.
Qed.

(** ** The URL validator *)

Lemma strip_prefix_Some p s rest : strip_prefix p s = Some rest -> s = p ++ rest.
Proof.
  revert s. induction p as [|a p IH]; intros s H; simpl in H.
  - injection H as ->. reflexivity.
  - destruct s as [|b s]; [discriminate|].
    destruct (Ascii.eqb a b) eqn:Hab; [|discriminate].
    apply Ascii.eqb_eq in Hab as ->. rewrite append_cons, (IH s H). reflexivity.
Qed.

Lemma span_spec p s a b :
  span p s = (a, b) -> s = a ++ b /\ all_chars p a = true.
Proof.
  revert a b. induction s as [|c s IH]; intros a b H; simpl in H.
  - injection H as <- <-. split; reflexivity.
  - destruct (p c) eqn:Hc.
    + destruct (span p s) as [a' b'] eqn:Hs. injection H as <- <-.
      destruct (IH a' b' eq_refl) as [-> Ha]. split; [reflexivity|].
      simpl. rewrite Hc, Ha. reflexivity.
    + injection H as <- <-. split; reflexivity.
Qed.

Lemma all_chars_app p a b :
  all_chars p (a ++ b) = all_chars p a && all_chars p b.
Proof.
  induction a as [|c a IH]; [reflexivity|].
  rewrite append_cons. simpl. rewrite IH, andb_assoc. reflexivity.
Qed.

Lemma all_chars_weaken (p q : ascii -> bool) s :
  (forall c, p c = true -> q c = true) -> all_chars p s = true -> all_chars q s = true.
Proof.
  intros Hpq. induction s as [|c s IH]; [reflexivity|]. simpl.
  rewrite !andb_true_iff. intros [Hc Hs]. auto.
Qed.

Lemma is_digit_not_space c : is_digit c = true -> negb (is_space c) = true.
Proof. destruct c as [[] [] [] [] [] [] [] []]; vm_compute; congruence. Qed.

Lemma host_char_not_space c : host_char c = true -> negb (is_space c) = true.
Proof. unfold host_char. rewrite !andb_true_iff. tauto. Qed.

Lemma path_to_end_no_space r :
  path_to_end r = true -> all_chars (fun c => negb (is_space c)) r = true.
Proof.
  destruct r as [|c p]; [reflexivity|]. simpl. rewrite !andb_true_iff.
  intros [Hc Hp]. apply Ascii.eqb_eq in Hc as ->. split; [reflexivity | exact Hp].
Qed.

Lemma port_path_no_space r :
  port_path_to_end r = true -> all_chars (fun c => negb (is_space c)) r = true.
Proof.
  destruct r as [|c r']; [reflexivity|]. unfold port_path_to_end.
  destruct (Ascii.eqb c ":") eqn:Hc; [|apply path_to_end_no_space].
  apply Ascii.eqb_eq in Hc as ->.
  destruct (span is_digit r') as [digits r2] eqn:Hs.
  destruct (span_spec _ _ _ _ Hs) as [-> Hd].
  rewrite andb_true_iff. intros [_ Hp]. simpl. rewrite all_chars_app, andb_true_iff.
  split; [|apply path_to_end_no_space, Hp].
  apply (all_chars_weaken is_digit); [apply is_digit_not_space | exact Hd].
Qed.

(** The scheme the validator found, with the target taken apart. *)
Lemma Validators_url_parts v :
  Validators_url v = true ->
  exists scheme host r,
    (scheme = "wss://" \/ scheme = "ws://" \/ scheme = "https://" \/ scheme = "http://")
    /\ v = scheme ++ host ++ r
    /\ JsString.truthy host = true /\ all_chars host_char host = true
    /\ port_path_to_end r = true.
Proof.
  unfold Validators_url, strip_scheme. intros H.
  assert (Hs : exists scheme rest,
             (scheme = "wss://" \/ scheme = "ws://" \/ scheme = "https://" \/ scheme = "http://")
             /\ v = scheme ++ rest
             /\ (let (host, r) := span host_char rest in
                 JsString.truthy host && port_path_to_end r) = true).
  { destruct (strip_prefix "wss://" v) as [rest|] eqn:H1;
      [exists "wss://", rest; split; [auto|]; split; [apply strip_prefix_Some, H1 | exact H]|].
    destruct (strip_prefix "ws://" v) as [rest|] eqn:H2;
      [exists "ws://", rest; split; [auto|]; split; [apply strip_prefix_Some, H2 | exact H]|].
    destruct (strip_prefix "https://" v) as [rest|] eqn:H3;
      [exists "https://", rest; split; [auto|]; split; [apply strip_prefix_Some, H3 | exact H]|].
    destruct (strip_prefix "http://" v) as [rest|] eqn:H4; [|discriminate].
    exists "http://", rest. split; [auto 6|]. split; [apply strip_prefix_Some, H4 | exact H]. }
  destruct Hs as (scheme & rest & Hscheme & -> & Hrest).
  destruct (span host_char rest) as [host r] eqn:Hspan.
  destruct (span_spec _ _ _ _ Hspan) as [-> Hhost].
  apply andb_true_iff in Hrest as [Ht Hr].
  exists scheme, host, r. auto.
Qed.

(** X16: a target the validator accepts is not empty and holds no white
    space anywhere (so [connect()] on it never answers "No URL configured"). *)
Theorem Validators_url_no_space v :
  Validators_url v = true ->
  JsString.truthy v = true /\ all_chars (fun c => negb (is_space c)) v = true.
Proof.
  intros H. destruct (Validators_url_parts v H) as (scheme & host & r & Hs & -> & _ & Hh & Hr).
  split.
  - destruct Hs as [-> | [-> | [-> | ->]]]; reflexivity.
  - rewrite !all_chars_app, !andb_true_iff. split; [|split].
    + destruct Hs as [-> | [-> | [-> | ->]]]; reflexivity.
    + apply (all_chars_weaken host_char); [apply host_char_not_space | exact Hh].
    + apply port_path_no_space, Hr.
Qed.

Lemma Validators_url_no_space_witness :
  Validators_url "wss://example.com:8080/socket" = true
  /\ JsString.truthy "wss://example.com:8080/socket" = true
  /\ all_chars (fun c => negb (is_space c)) "wss://example.com:8080/socket" = true.
Proof.
  split; [reflexivity|].
  exact (Validators_url_no_space "wss://example.com:8080/socket" eq_refl).
Defined.

Lemma startsWith_lower (s p : string) :
  JsString.toLowerCase p = p ->
  JsString.startsWith s p = true ->
  JsString.startsWith (JsString.toLowerCase s) p = true.
Proof.
  unfold JsString.startsWith. rewrite !prefix_iff. intros Hp [rest ->].
  exists (JsString.toLowerCase rest). rewrite <- Hp at 2. clear Hp.
  induction p as [|c p IH]; [reflexivity|].
  rewrite !append_cons. simpl. rewrite append_cons, IH. reflexivity.
Qed.

(** X17: how an accepted target is opened: with the scheme http or https
    always as Socket.IO; with the scheme ws or wss as a WebSocket, unless
    "socket.io" occurs in it in any case, which makes it Socket.IO too. *)
Theorem validated_target_kind v :
  Validators_url v = true ->
  (JsString.startsWith v "http://" = true \/ JsString.startsWith v "https://" = true ->
   _detectConnectionType v = socketio)
  /\ (JsString.startsWith v "ws://" = true \/ JsString.startsWith v "wss://" = true ->
      _detectConnectionType v
      = if JsString.includes (JsString.toLowerCase v) "socket.io" then socketio else websocket)
  /\ (JsString.startsWith v "http://" = true \/ JsString.startsWith v "https://" = true
      \/ JsString.startsWith v "ws://" = true \/ JsString.startsWith v "wss://" = true).
Proof.
  intros H. split; [|split].
  - intros [Hp | Hp]; apply startsWith_lower in Hp; try reflexivity;
      unfold _detectConnectionType; rewrite Hp, ?orb_true_r; reflexivity.
  - intros Hp. unfold _detectConnectionType.
    assert (Hw : exists rest, JsString.toLowerCase v = "ws" ++ rest).
    { destruct Hp as [Hp | Hp]; apply startsWith_lower in Hp; try reflexivity;
        apply prefix_iff in Hp as [rest ->]; eexists; reflexivity. }
    destruct Hw as [rest Hw]. rewrite Hw. unfold JsString.startsWith.
    destruct (JsString.includes _ _); reflexivity.
  - destruct (Validators_url_parts v H) as (scheme & host & r & Hs & -> & _).
    unfold JsString.startsWith.
    destruct Hs as [-> | [-> | [-> | ->]]]; rewrite !prefix_iff; eauto 6.
Qed.

Lemma validated_target_kind_witness :
  Validators_url "wss://host/socket.IO/" = true
  /\ _detectConnectionType "wss://host/socket.IO/" = socketio.
Proof.
  split; [reflexivity|].
  destruct (validated_target_kind "wss://host/socket.IO/" eq_refl) as (_ & Hw & _).
  rewrite Hw; [reflexivity | right; reflexivity].
Defined.

(** ** escapeHTML *)

Lemma escape_char_cases c :
  (c = "&"%char /\ escape_char c = "&amp;")
  \/ (c = "<"%char /\ escape_char c = "&lt;")
  \/ (c = ">"%char /\ escape_char c = "&gt;")
  \/ (c = "034"%char /\ escape_char c = "&quot;")
  \/ (c = "'"%char /\ escape_char c = "&#039;")
  \/ (escape_char c = String c EmptyString /\ c <> "&"%char /\ is_markup c = false).
Proof.
  unfold escape_char, is_markup.
  destruct (Ascii.eqb c "&") eqn:H1; [apply Ascii.eqb_eq in H1; auto|].
  destruct (Ascii.eqb c "<") eqn:H2; [apply Ascii.eqb_eq in H2; auto|].
  destruct (Ascii.eqb c ">") eqn:H3; [apply Ascii.eqb_eq in H3; auto 6|].
  destruct (Ascii.eqb c "034") eqn:H4; [apply Ascii.eqb_eq in H4; auto 7|].
  destruct (Ascii.eqb c "'") eqn:H5; [apply Ascii.eqb_eq in H5; auto 8|].
  do 5 right. split; [reflexivity|]. split; [|reflexivity].
  intros ->. discriminate H1.
Qed.

Ltac push_append := repeat rewrite append_cons; rewrite ?append_empty.

(** X18: the escaped text holds no less-than, greater-than, double quote or
    apostrophe, whatever the message was; a message without these and
    without an ampersand is left as it is. *)
Theorem escapeHTML_no_markup s :
  all_chars (fun c => negb (is_markup c)) (escapeHTML s) = true
  /\ (all_chars (fun c => negb (is_markup c) && negb (Ascii.eqb c "&")) s = true ->
      escapeHTML s = s).
Proof.
  induction s as [|c s [IH1 IH2]]; [split; reflexivity|]. cbn [escapeHTML all_chars]. split.
  - rewrite all_chars_app, IH1, andb_true_r.
    destruct (escape_char_cases c) as [[_ ->]|[[_ ->]|[[_ ->]|[[_ ->]|[[_ ->]|[-> [_ Hm]]]]]]];
      try reflexivity.
    simpl. rewrite Hm. reflexivity.
  - rewrite !andb_true_iff. intros [[Hm Ha] Hs]. rewrite (IH2 Hs).
    apply negb_true_iff in Hm, Ha.
    destruct (escape_char_cases c) as [[-> _]|[[-> _]|[[-> _]|[[-> _]|[[-> _]|[-> _]]]]]];
      try discriminate; reflexivity.
Qed.

(** X19: escaping loses nothing: two messages with the same escaped text
    are the same message. *)
Theorem escapeHTML_injective s t : escapeHTML s = escapeHTML t -> s = t.
Proof.
  revert t. induction s as [|c s IH]; intros [|d t]; cbn [escapeHTML]; intros H.
  - reflexivity.
  - exfalso. destruct (escape_char_cases d) as [[_ E]|[[_ E]|[[_ E]|[[_ E]|[[_ E]|[E _]]]]]];
      rewrite E in H; push_append; discriminate H.
  - exfalso. destruct (escape_char_cases c) as [[_ E]|[[_ E]|[[_ E]|[[_ E]|[[_ E]|[E _]]]]]];
      rewrite E in H; push_append; discriminate H.
  - destruct (escape_char_cases c) as [[-> E]|[[-> E]|[[-> E]|[[-> E]|[[-> E]|[E [Hc _]]]]]]];
      destruct (escape_char_cases d) as [[-> F]|[[-> F]|[[-> F]|[[-> F]|[[-> F]|[F [Hd _]]]]]]];
      rewrite ?E, ?F in H; revert H; push_append; intros H;
      try discriminate H; try (injection H as H; f_equal; apply IH; exact H);
      try (injection H as -> H; contradiction);
      try (injection H as <- H; contradiction).
    injection H as -> H. f_equal. apply IH, H.
Qed.

Lemma escapeHTML_injective_witness :
  escapeHTML "a<b" = escapeHTML "a<b" /\ "a<b" = "a<b".
Proof.
  split; [reflexivity | exact (escapeHTML_injective "a<b" "a<b" eq_refl)].
Defined.

(** ** The message router *)

Lemma substring_all s : String.substring 0 (String.length s) s = s.
Proof. induction s as [|c s IH]; [reflexivity|]. simpl. rewrite IH. reflexivity. Qed.

Lemma indexOf_split c s i :
  indexOf c s = Some i ->
  s = slice_to i s ++ String c (slice_from (i + 1) s).
Proof.
  unfold slice_to, slice_from. revert i. induction s as [|d s IH]; intros i H; [discriminate|].
  simpl in H. destruct (Ascii.eqb d c) eqn:Hd.
  - injection H as <-. apply Ascii.eqb_eq in Hd as ->. simpl.
    rewrite Nat.sub_0_r, substring_all. reflexivity.
  - destruct (indexOf c s) as [j|] eqn:Hj; [|discriminate]. injection H as <-.
    simpl. rewrite append_cons. f_equal. apply (IH j eq_refl).
Qed.

Lemma indexOf_append c key v :
  indexOf c key = None ->
  indexOf c (key ++ String c v) = Some (String.length key)
  /\ slice_to (String.length key) (key ++ String c v) = key
  /\ slice_from (String.length key + 1) (key ++ String c v) = v.
Proof.
  unfold slice_to, slice_from. induction key as [|d key IH]; intros H.
  - rewrite append_empty. simpl. rewrite Ascii.eqb_refl.
    rewrite Nat.sub_0_r, substring_all. auto.
  - simpl in H. destruct (Ascii.eqb d c) eqn:Hd; [discriminate|].
    destruct (indexOf c key) eqn:Hk; [discriminate|].
    destruct (IH eq_refl) as (H1 & H2 & H3).
    rewrite append_cons. simpl. rewrite Hd, H1, H2. simpl in H3. rewrite H3. auto.
Qed.

(** X20: the first colon is the delimiter: a text [key:val] whose key holds
    no colon is routed on the key with the value taken verbatim, further
    colons included; a text with an unknown key or without any colon is
    logged as a raw line that is the received text, character by character. *)
Theorem handleWSMessage_first_colon url :
  (forall key val,
      indexOf ":" key = None ->
      handleWSMessage url (key ++ ":" ++ val)
      = if String.eqb key "name" || String.eqb key "firmware" || String.eqb key "uptime"
        then do_setInstanceInfo url key val
        else if String.eqb key "log" then do_Log_info val
        else if String.eqb key "warn" then do_Log_warn val
        else if String.eqb key "error" then do_Log_error val
        else do_Log_raw (key ++ ":" ++ val) "ok")
  /\ (forall text line level,
        handleWSMessage url text = do_Log_raw line level -> line = text /\ level = "ok").
Proof.
  split.
  - intros key val Hk. unfold handleWSMessage.
    change (":" ++ val) with (String ":" val).
    destruct (indexOf_append ":" key val Hk) as (-> & -> & ->). reflexivity.
  - intros text line level. unfold handleWSMessage.
    destruct (indexOf ":" text) as [idx|] eqn:Hi.
    + pose proof (indexOf_split _ _ _ Hi) as Hs.
      repeat (match goal with |- context [if ?b then _ else _] => destruct b end);
        intros H; try discriminate H.
      injection H as <- <-. split; [|reflexivity]. symmetry. exact Hs.
    + intros H. injection H as <- <-. auto.
Qed.

(** ** The logger *)

Lemma addLogLine_fields now lv b m L :
  Log.rx_count (Log.addLogLine now lv b m L) = Log.rx_count L
  /\ Log.tx_count (Log.addLogLine now lv b m L) = Log.tx_count L
  /\ Log.err_count (Log.addLogLine now lv b m L) = Log.err_count L
  /\ Log.filter (Log.addLogLine now lv b m L) = Log.filter L.
Proof. repeat split. Qed.

Lemma addLogLine_body now lv b m L :
  length (Log.body L) <= 2000 ->
  length (Log.body (Log.addLogLine now lv b m L)) = Nat.min 2000 (S (length (Log.body L)))
  /\ last (Log.body (Log.addLogLine now lv b m L))
     = Some {| Log.ts := now; Log.level := lv; Log.badge := b; Log.msg := escapeHTML m;
               Log.tag := Log.tagName lv; Log.shown := Log.shouldShow L lv |}
  /\ (length (Log.body L) < 2000 ->
      Log.body (Log.addLogLine now lv b m L)
      = (Log.body L ++ [{| Log.ts := now; Log.level := lv; Log.badge := b;
                           Log.msg := escapeHTML m; Log.tag := Log.tagName lv;
                           Log.shown := Log.shouldShow L lv |}])%list)
  /\ (length (Log.body L) = 2000 ->
      Log.body (Log.addLogLine now lv b m L)
      = (tail (Log.body L) ++ [{| Log.ts := now; Log.level := lv; Log.badge := b;
                                  Log.msg := escapeHTML m; Log.tag := Log.tagName lv;
                                  Log.shown := Log.shouldShow L lv |}])%list).
Proof.
  intros Hlen. unfold Log.addLogLine. cbn [Log.body Log.with_body].
  set (line := {| Log.ts := now |}).
  rewrite length_app. cbn [length]. 
  destruct (Nat.ltb 2000 (length (Log.body L) + 1)) eqn:Hfull.
  - apply Nat.ltb_lt in Hfull. assert (Heq : length (Log.body L) = 2000) by lia.
    destruct (Log.body L) as [|l0 rest] eqn:Hb; [simpl in Heq; discriminate|].
    cbn [tail app]. cbn [length] in *. split; [rewrite length_app; cbn [length]; lia|].
    split; [apply last_snoc|]. split; [lia|]. reflexivity.
  - apply Nat.ltb_ge in Hfull. split; [rewrite length_app; cbn [length]; lia|].
    split; [apply last_snoc|]. split; [reflexivity|]. lia.
Qed.

Lemma log_effect_body url now e L :
  length (Log.body L) <= 2000 -> length (Log.body (log_effect url now e L)) <= 2000.
Proof.
  intros Hlen.
  assert (Hadd : forall lv b m L', length (Log.body L') <= 2000 ->
                   length (Log.body (Log.addLogLine now lv b m L')) <= 2000).
  { intros lv b m L' H. destruct (addLogLine_body now lv b m L' H) as (-> & _). lia. }
  destruct e; try exact Hlen; cbn [log_effect].
  - apply Hadd, Hlen.
  - apply Hadd. exact Hlen.
  - apply Hadd. exact Hlen.
  - destruct (handleWSMessage url text); cbn [run_RouterCall]; try exact Hlen;
      apply Hadd; exact Hlen.
Qed.

(** X21: the log never holds more than 2000 lines: each new line goes to
    the end and, when the log is full, the oldest line is dropped; this
    stays so through every log call of the client and of the router. *)
Theorem log_capped url clock n effects L now lv b m :
  length (Log.body L) <= 2000 ->
  length (Log.body (log_effects url clock n effects L)) <= 2000
  /\ length (Log.body (Log.addLogLine now lv b m L)) = Nat.min 2000 (S (length (Log.body L)))
  /\ last (Log.body (Log.addLogLine now lv b m L))
     = Some {| Log.ts := now; Log.level := lv; Log.badge := b; Log.msg := escapeHTML m;
               Log.tag := Log.tagName lv; Log.shown := Log.shouldShow L lv |}
  /\ (length (Log.body L) = 2000 ->
      Log.body (Log.addLogLine now lv b m L)
      = (tail (Log.body L) ++ [{| Log.ts := now; Log.level := lv; Log.badge := b;
                                  Log.msg := escapeHTML m; Log.tag := Log.tagName lv;
                                  Log.shown := Log.shouldShow L lv |}])%list).
Proof.
  intros Hlen. split.
  - revert n L Hlen. induction effects as [|e rest IH]; intros n L Hlen; [exact Hlen|].
    cbn [log_effects]. apply IH, log_effect_body, Hlen.
  - destruct (addLogLine_body now lv b m L Hlen) as (H1 & H2 & _ & H4). auto.
Qed.

Lemma log_capped_witness :
  length (Log.body Log.empty) <= 2000
  /\ length (Log.body (log_effects "ws://host/x" (fun _ => "12:00:00.000") 0
                         (trace Sample.ws_dropped) Log.empty)) <= 2000.
Proof.
  assert (H : length (Log.body Log.empty) <= 2000) by (simpl; lia).
  split; [exact H|].
  exact (proj1 (log_capped "ws://host/x" (fun _ => "12:00:00.000") 0 (trace Sample.ws_dropped)
                  Log.empty EmptyString "ok" None EmptyString H)).
Defined.

Lemma log_effect_counters url now e L :
  Log.rx_count (log_effect url now e L)
  = Log.rx_count L + (if is_Log_rx e then 1 else 0)
  /\ Log.tx_count (log_effect url now e L)
     = Log.tx_count L + (if is_Log_tx e then 1 else 0)
  /\ Log.err_count (log_effect url now e L)
     = Log.err_count L + (if is_error_message e then 1 else 0).
Proof.
  destruct e; cbn [log_effect is_Log_rx is_Log_tx is_error_message];
    try (repeat split; simpl; lia).
  unfold handleWSMessage. destruct (indexOf ":" text) as [idx|]; [|repeat split; simpl; lia].
  destruct (String.eqb (slice_to idx text) "error") eqn:He.
  - apply String.eqb_eq in He. rewrite He. simpl. repeat split; lia.
  - repeat (match goal with |- context [if ?b then _ else _] => destruct b eqn:? end);
      try discriminate; repeat split; simpl; lia.
Qed.

(** X22: the three counters of the log tell what happened on the wire: the
    rx counter grows by the number of received payloads, the tx counter by
    the number of sent texts, and the error counter by the number of routed
    messages with the key [error]; the log lines of the client about
    failures ([Log.ws] with the status error) count nowhere. *)
Theorem log_counters url clock n effects L :
  Log.rx_count (log_effects url clock n effects L)
  = Log.rx_count L + length (filter (fun e => is_Log_rx e = true) effects)
  /\ Log.tx_count (log_effects url clock n effects L)
     = Log.tx_count L + length (filter (fun e => is_Log_tx e = true) effects)
  /\ Log.err_count (log_effects url clock n effects L)
     = Log.err_count L + length (filter (fun e => is_error_message e = true) effects).
Proof.
  revert n L. induction effects as [|e rest IH]; intros n L.
  - simpl. repeat split; lia.
  - cbn [log_effects]. destruct (IH (S n) (log_effect url (clock n) e L)) as (H1 & H2 & H3).
    destruct (log_effect_counters url (clock n) e L) as (E1 & E2 & E3).
    rewrite H1, H2, H3, E1, E2, E3, !filter_cons.
    destruct (is_Log_rx e), (is_Log_tx e), (is_error_message e);
      repeat case_decide; try congruence; simpl; repeat split; lia.
Qed.

(** ** The saved servers *)

Lemma findIndex_Some url l i :
  findIndex url l = Some i ->
  exists d, l !! i = Some d /\ inst_url d = url
            /\ forall j d', j < i -> l !! j = Some d' -> inst_url d' <> url.
Proof.
  revert i. induction l as [|d l IH]; intros i H; [discriminate|]. simpl in H.
  destruct (String.eqb (inst_url d) url) eqn:Hd.
  - injection H as <-. apply String.eqb_eq in Hd. exists d. repeat split; auto. lia.
  - destruct (findIndex url l) as [k|] eqn:Hk; [|discriminate]. injection H as <-.
    destruct (IH k eq_refl) as (d0 & Hl & Hu & Hbefore).
    exists d0. split; [exact Hl|]. split; [exact Hu|].
    intros [|j] d' Hj Hd'.
    + injection Hd' as <-. apply String.eqb_neq, Hd.
    + apply (Hbefore j d'); [lia | exact Hd'].
Qed.

Lemma findIndex_app_new url l d :
  findIndex url l = None -> inst_url d = url -> findIndex url (l ++ [d]) = Some (length l).
Proof.
  induction l as [|d0 l IH]; simpl; intros Hn Hd.
  - rewrite Hd, String.eqb_refl. reflexivity.
  - destruct (String.eqb (inst_url d0) url); [discriminate|].
    destruct (findIndex url l); [discriminate|]. rewrite (IH eq_refl Hd). reflexivity.
Qed.

Lemma findIndex_app_other url' l d :
  inst_url d <> url' -> findIndex url' (l ++ [d]) = findIndex url' l.
Proof.
  intros Hd. induction l as [|d0 l IH]; simpl.
  - rewrite (proj2 (String.eqb_neq _ _) Hd). reflexivity.
  - destruct (String.eqb (inst_url d0) url'); [reflexivity|]. rewrite IH. reflexivity.
Qed.

Lemma findIndex_insert_same_url url' l i d d' :
  l !! i = Some d -> inst_url d' = inst_url d ->
  findIndex url' (<[i := d']> l) = findIndex url' l.
Proof.
  revert i. induction l as [|d0 l IH]; intros [|i] Hi Hu; simpl in *; try discriminate.
  - injection Hi as ->. rewrite Hu. reflexivity.
  - destruct (String.eqb (inst_url d0) url'); [reflexivity|].
    rewrite (IH i Hi Hu). reflexivity.
Qed.

Lemma instance_of_Some url l d : instance_of url l = Some d -> inst_url d = url.
Proof.
  unfold instance_of. destruct (findIndex url l) as [i|] eqn:Hi; [|discriminate].
  destruct (findIndex_Some url l i Hi) as (d0 & Hl & Hu & _). intros H. congruence.
Qed.

(** The entry of the target itself after [addOrUpdateInstance]. *)
Lemma addOrUpdateInstance_row url name lastError l :
  match instance_of url l with
  | Some d =>
      instance_of url (addOrUpdateInstance url name lastError l)
      = Some {| inst_url := url; inst_name := default (inst_name d) name;
                inst_lastError := default (inst_lastError d) lastError |}
      /\ length (addOrUpdateInstance url name lastError l) = length l
  | None =>
      instance_of url (addOrUpdateInstance url name lastError l)
      = Some {| inst_url := url; inst_name := default EmptyString name;
                inst_lastError := default EmptyString lastError |}
      /\ length (addOrUpdateInstance url name lastError l) = S (length l)
  end.
Proof.
  unfold instance_of, addOrUpdateInstance.
  destruct (findIndex url l) as [i|] eqn:Hi.
  - destruct (findIndex_Some url l i Hi) as (d & Hl & Hu & _). rewrite Hl.
    erewrite findIndex_insert_same_url by (try exact Hl; reflexivity). rewrite Hi.
    rewrite list_lookup_insert_eq by (eapply lookup_lt_Some; eauto).
    rewrite Hu, length_insert. auto.
  - rewrite findIndex_app_new by (try exact Hi; reflexivity).
    rewrite list_lookup_middle by reflexivity. rewrite length_app. simpl.
    split; [reflexivity | lia].
Qed.

(** X23: the stored instances work as a table keyed by the target: after
    [addOrUpdateInstance(url, ...)] the entry of [url] holds the fields that
    were passed and keeps the fields that were not (a new entry gets the
    empty string for them), the entry of every other target is as before,
    and the array grows by one only for a new target. *)
Theorem addOrUpdateInstance_table url name lastError l :
  match instance_of url l with
  | Some d =>
      instance_of url (addOrUpdateInstance url name lastError l)
      = Some {| inst_url := url; inst_name := default (inst_name d) name;
                inst_lastError := default (inst_lastError d) lastError |}
      /\ length (addOrUpdateInstance url name lastError l) = length l
  | None =>
      instance_of url (addOrUpdateInstance url name lastError l)
      = Some {| inst_url := url; inst_name := default EmptyString name;
                inst_lastError := default EmptyString lastError |}
      /\ length (addOrUpdateInstance url name lastError l) = S (length l)
  end
  /\ (forall url', url' <> url ->
        instance_of url' (addOrUpdateInstance url name lastError l) = instance_of url' l).
Proof.
  split; [apply addOrUpdateInstance_row|].
  intros url' Hne. unfold instance_of, addOrUpdateInstance.
  destruct (findIndex url l) as [i|] eqn:Hi.
  - destruct (findIndex_Some url l i Hi) as (d & Hl & Hu & _). rewrite Hl.
    erewrite findIndex_insert_same_url by (try exact Hl; reflexivity).
    destruct (findIndex url' l) as [j|] eqn:Hj; [|reflexivity].
    apply list_lookup_insert_ne. intros ->.
    destruct (findIndex_Some url' l j Hj) as (d' & Hl' & Hu' & _). congruence.
  - rewrite findIndex_app_other by (simpl; congruence).
    destruct (findIndex url' l) as [j|] eqn:Hj; [|reflexivity].
    apply lookup_app_l. destruct (findIndex_Some url' l j Hj) as (d' & Hl' & _).
    eapply lookup_lt_Some; eauto.
Qed.

(** The longest history the page keeps. *)
Lemma removelast_take {A} (l : list A) : removelast l = take (length l - 1) l.
Proof.
  rewrite removelast_firstn_len. f_equal. lia.
Qed.

Lemma remember_new url recent :
  url ∉ recent -> length recent <= 20 -> remember url recent = take 20 (url :: recent).
Proof.
  intros Hn Hlen. unfold remember. rewrite bool_decide_eq_false_2 by exact Hn.
  destruct (Nat.ltb 20 (length (url :: recent))) eqn:Hfull.
  - apply Nat.ltb_lt in Hfull. rewrite removelast_take. f_equal. simpl in *. lia.
  - apply Nat.ltb_ge in Hfull. symmetry. apply take_ge. exact Hfull.
Qed.

(** X24: the history of targets keeps at most 20 entries without
    repetition: a target that is already there changes nothing, a new one
    goes to the front and pushes the oldest out when 20 are there. *)
Theorem remember_bounded url recent :
  length recent <= 20 -> NoDup recent ->
  length (remember url recent) <= 20
  /\ NoDup (remember url recent)
  /\ url ∈ remember url recent
  /\ (url ∈ recent -> remember url recent = recent)
  /\ (url ∉ recent -> remember url recent = take 20 (url :: recent)).
Proof.
  intros Hlen Hnd. destruct (decide (url ∈ recent)) as [Hin|Hnin].
  - assert (Hr : remember url recent = recent)
      by (unfold remember; rewrite bool_decide_eq_true_2 by exact Hin; reflexivity).
    rewrite Hr. split; [exact Hlen|]. split; [exact Hnd|]. split; [exact Hin|].
    split; [reflexivity | contradiction].
  - rewrite (remember_new url recent Hnin Hlen).
    split; [rewrite length_take; lia|].
    split; [eapply sublist_NoDup; [apply NoDup_cons; split; eassumption | apply sublist_take]|].
    split; [simpl; apply elem_of_cons; auto|].
    split; [contradiction | reflexivity].
Qed.

Lemma remember_bounded_witness :
  length ["ws://a"; "ws://b"] <= 20 /\ NoDup ["ws://a"; "ws://b"]
  /\ remember "ws://c" ["ws://a"; "ws://b"] = ["ws://c"; "ws://a"; "ws://b"].
Proof.
  assert (Hlen : length ["ws://a"; "ws://b"] <= 20) by (simpl; lia).
  assert (Hnd : NoDup ["ws://a"; "ws://b"]) by compute_done.
  split; [exact Hlen|]. split; [exact Hnd|].
  destruct (remember_bounded "ws://c" ["ws://a"; "ws://b"] Hlen Hnd) as (_ & _ & _ & _ & Hnew).
  rewrite Hnew; [reflexivity|]. compute_done.
Defined.

(** X25: the save button stores nothing for a target the validator
    rejects.  For an accepted target (white space around it cut off) the
    target is in the history afterwards, the history stays within 20 valid
    entries, and the stored instance of that target has an empty name and
    an empty error: saving a known instance again wipes the name it had. *)
Theorem saveCurrentServer_stores value recent instances :
  length recent <= 20 ->
  Forall (fun u => Validators_url u = true) recent ->
  (Validators_url (trim value) = false ->
   saveCurrentServer value recent instances = (recent, instances))
  /\ (Validators_url (trim value) = true ->
      trim value ∈ fst (saveCurrentServer value recent instances)
      /\ length (fst (saveCurrentServer value recent instances)) <= 20
      /\ Forall (fun u => Validators_url u = true)
           (fst (saveCurrentServer value recent instances))
      /\ instance_of (trim value) (snd (saveCurrentServer value recent instances))
         = Some {| inst_url := trim value; inst_name := EmptyString;
                   inst_lastError := EmptyString |}).
Proof.
  intros Hlen Hvalid. unfold saveCurrentServer. split; intros Hv; rewrite Hv; simpl.
  - reflexivity.
  - pose proof (addOrUpdateInstance_row (trim value) (Some EmptyString) (Some EmptyString)
                  instances) as Hrow.
    split; [|split; [|split]].
    + unfold remember. case_bool_decide; [assumption|].
      destruct (Nat.ltb _ _) eqn:Hfull; [|apply elem_of_cons; auto].
      rewrite removelast_take. simpl length. apply Nat.ltb_lt in Hfull. simpl in Hfull.
      replace (S (length recent) - 1) with (S (length recent - 1)) by lia.
      simpl. apply elem_of_cons; auto.
    + unfold remember. case_bool_decide; [assumption|].
      destruct (Nat.ltb _ _) eqn:Hfull.
      * rewrite removelast_take, length_take. simpl in *. lia.
      * apply Nat.ltb_ge in Hfull. exact Hfull.
    + unfold remember. case_bool_decide; [assumption|].
      assert (Hall : Forall (fun u => Validators_url u = true) (trim value :: recent))
        by (constructor; assumption).
      destruct (Nat.ltb _ _); [|exact Hall].
      rewrite removelast_take. apply Forall_take, Hall.
    + destruct (instance_of (trim value) instances); destruct Hrow as [Hrow _]; exact Hrow.
Qed.

Lemma saveCurrentServer_stores_witness :
  Validators_url (trim "  ws://host/x ") = true
  /\ instance_of (trim "  ws://host/x ")
       (snd (saveCurrentServer "  ws://host/x " []
               [{| inst_url := "ws://host/x"; inst_name := "lamp";
                   inst_lastError := "http:500" |}]))
     = Some {| inst_url := trim "  ws://host/x "; inst_name := EmptyString;
               inst_lastError := EmptyString |}.
Proof.
  split; [reflexivity|].
  pose proof (saveCurrentServer_stores "  ws://host/x " []
                [{| inst_url := "ws://host/x"; inst_name := "lamp";
                    inst_lastError := "http:500" |}]
                ltac:(simpl; lia) ltac:(constructor)) as [_ H].
  exact (proj2 (proj2 (proj2 (H eq_refl)))).
Defined.
